(** * Neutron-Spectrometry: the MLEM unfolding engine

    A shallow embedding of [runMLEM] (src/mlem/main.cpp, lines 1261-1356) and
    of the RMS-difference aggregation of [main] (src/mlem/main.cpp, lines
    530-565), with the properties the specification states about them.

    Conventions of the embedding:
    - a C++ [double] is a value of a type [T] carrying the operations the
      source applies to it (class [Scalar]).  Two instances are given: IEEE
      binary64 ([float], the arithmetic the compiled program runs, with its
      infinities and NaN, each operation rounded on its own) and exact
      rationals ([Q], arithmetic without rounding, overflow or NaN).
      Everything that does not depend on the laws of arithmetic is proved
      once, for every instance; what depends on them is proved of binary64,
      from the IEEE specification of its operations (SpecFloat, which the
      primitive operations satisfy by the axioms of FloatAxioms);
    - a [std::vector<double>] is a [list T]; [v[i]] outside the vector is
      undefined behaviour in C++ and is the outcome [OutOfRange] here;
    - an [int] is a [Z]; the only integer arithmetic of the modelled code is
      the increment of loop counters below their bound, which cannot wrap;
    - the four reference parameters of [runMLEM] form the record [Refs], which
      is threaded through the iterations.

    The file first gives the embedding and the vocabulary of the statements,
    then the lemmas on the loops, then the properties, each under the
    identifier of the claim it settles. *)

From Stdlib Require Import ZArith List Bool Lia QArith.
From Stdlib Require Import PrimFloat Uint63.
From Stdlib Require Import SpecFloat FloatOps FloatAxioms.
From Stdlib Require String Ascii DecimalString.
Import ListNotations.
Import String.StringSyntax.

Set Warnings "-inexact-float".
Local Open Scope Z_scope.

(** ** The arithmetic of [double] *)

Class Scalar (T : Type) : Type := {
  zero : T;                       (* the literal 0 *)
  one : T;                        (* the literal 1 *)
  add : T -> T -> T;
  sub : T -> T -> T;
  mul : T -> T -> T;
  div : T -> T -> T;
  leb : T -> T -> bool;           (* x <= y *)
  ltb : T -> T -> bool;           (* x < y *)
  of_int : Z -> T                 (* conversion of an int operand to double *)
}.

Declare Scope scalar_scope.
Delimit Scope scalar_scope with S.
Infix "+." := add (at level 50, left associativity) : scalar_scope.
Infix "-." := sub (at level 50, left associativity) : scalar_scope.
Infix "*." := mul (at level 40, left associativity) : scalar_scope.
Infix "/." := div (at level 40, left associativity) : scalar_scope.
Infix "<=." := leb (at level 70, no associativity) : scalar_scope.
Infix "<." := ltb (at level 70, no associativity) : scalar_scope.
Notation "x >=. y" := (leb y x) (at level 70, no associativity) : scalar_scope.
Local Open Scope scalar_scope.

(** [std::sqrt], for the instances that have it. *)
Class Sqrt (T : Type) : Type := sqrt : T -> T.

(** IEEE binary64, round to nearest even: the [double] of the program. *)
Definition float_of_int (z : Z) : float :=
  if (z <? 0)%Z then PrimFloat.opp (PrimFloat.of_uint63 (Uint63.of_Z (- z)))
  else PrimFloat.of_uint63 (Uint63.of_Z z).

#[export] Instance float_Scalar : Scalar float := {|
  zero := 0%float;
  one := 1%float;
  add := PrimFloat.add;
  sub := PrimFloat.sub;
  mul := PrimFloat.mul;
  div := PrimFloat.div;
  leb := PrimFloat.leb;
  ltb := PrimFloat.ltb;
  of_int := float_of_int
|}.

#[export] Instance float_Sqrt : Sqrt float := PrimFloat.sqrt.

(** Exact rational arithmetic. *)
#[export] Instance Q_Scalar : Scalar Q := {|
  zero := 0%Q;
  one := 1%Q;
  add := Qplus;
  sub := Qminus;
  mul := Qmult;
  div := Qdiv;
  leb := Qle_bool;
  ltb := fun x y => negb (Qle_bool y x);
  of_int := inject_Z
|}.

(** ** Outcomes and loops *)

Inductive result (A : Type) : Type :=
| Ok (a : A)
| OutOfRange.
Arguments Ok {A} a.
Arguments OutOfRange {A}.

Definition bind {A B : Type} (r : result A) (k : A -> result B) : result B :=
  match r with
  | Ok a => k a
  | OutOfRange => OutOfRange
  end.

Notation "x <- e ;; k" := (bind e (fun x => k))
  (at level 100, e at next level, right associativity).

(** [v[i]] read. *)
Definition at_ {A : Type} (v : list A) (i : nat) : result A :=
  match nth_error v i with
  | Some x => Ok x
  | None => OutOfRange
  end.

Notation "v .[ i ]" := (at_ v i) (at level 1, left associativity, format "v .[ i ]").

Fixpoint set_nth {A : Type} (v : list A) (i : nat) (x : A) : list A :=
  match v, i with
  | [], _ => []
  | _ :: v', O => x :: v'
  | y :: v', S i' => y :: set_nth v' i' x
  end.

(** [v[i] = x] write. *)
Definition assign {A : Type} (v : list A) (i : nat) (x : A) : result (list A) :=
  if (i <? length v)%nat then Ok (set_nth v i x) else OutOfRange.

(** The indices visited by [for (int i = 0; i < n; i++)]. *)
Definition range (n : Z) : list nat := seq 0 (Z.to_nat n).

(** A counted loop over a state [St]. *)
Fixpoint for_each {St : Type} (idxs : list nat) (body : nat -> St -> result St)
  (s : St) : result St :=
  match idxs with
  | [] => Ok s
  | i :: rest => s' <- body i s ;; for_each rest body s'
  end.

(** ** [runMLEM] *)

Section MLEM.

Context {T : Type} `{Scalar T}.

(** The reference parameters of [runMLEM]. *)
Record Refs : Type := mkRefs {
  measurements : list T;
  spectrum : list T;
  nns_response : list (list T);
  mlem_ratio : list T
}.

(** Lines 1273-1281: [mlem_estimate]. *)
Definition apply_response (num_measurements num_bins : Z)
  (nns_response : list (list T)) (spectrum : list T) : result (list T) :=
  for_each (range num_measurements) (fun i_meas mlem_estimate =>
    temp_value <- for_each (range num_bins) (fun i_bin temp_value =>
        row <- nns_response.[i_meas] ;;
        r <- row.[i_bin] ;;
        s <- spectrum.[i_bin] ;;
        Ok (temp_value +. r *. s)) zero ;;
    Ok (mlem_estimate ++ [temp_value])) [].

(** Lines 1284-1294: [transpose_response]. *)
Definition transpose (num_measurements num_bins : Z)
  (nns_response : list (list T)) : result (list (list T)) :=
  for_each (range num_bins) (fun i_bin transpose_response =>
    new_column <- for_each (range num_measurements) (fun i_meas new_column =>
        row <- nns_response.[i_meas] ;;
        r <- row.[i_bin] ;;
        Ok (new_column ++ [r])) [] ;;
    Ok (transpose_response ++ [new_column])) [].

(** Lines 1297-1300: [mlem_ratio], pushed onto the cleared vector. *)
Definition compute_ratio (num_measurements : Z)
  (measurements mlem_estimate : list T) : result (list T) :=
  for_each (range num_measurements) (fun i_meas mlem_ratio =>
    m <- measurements.[i_meas] ;;
    e <- mlem_estimate.[i_meas] ;;
    Ok (mlem_ratio ++ [m /. e])) [].

(** Lines 1303-1315: [mlem_correction]. *)
Definition compute_correction (num_measurements num_bins : Z)
  (transpose_response : list (list T)) (mlem_ratio : list T) : result (list T) :=
  for_each (range num_bins) (fun i_bin mlem_correction =>
    temp_value <- for_each (range num_measurements) (fun i_meas temp_value =>
        col <- transpose_response.[i_bin] ;;
        t <- col.[i_meas] ;;
        r <- mlem_ratio.[i_meas] ;;
        Ok (temp_value +. t *. r)) zero ;;
    Ok (mlem_correction ++ [temp_value])) [].

(** Lines 1319-1333: [mlem_normalization]. *)
Definition compute_normalization (num_measurements num_bins : Z)
  (transpose_response : list (list T)) : result (list T) :=
  for_each (range num_bins) (fun i_bin mlem_normalization =>
    temp_value <- for_each (range num_measurements) (fun i_meas temp_value =>
        col <- transpose_response.[i_bin] ;;
        t <- col.[i_meas] ;;
        Ok (temp_value +. t)) zero ;;
    Ok (mlem_normalization ++ [temp_value])) [].

(** Lines 1336-1339: the update of [spectrum], in place. *)
Definition update_spectrum (num_bins : Z)
  (mlem_correction mlem_normalization spectrum : list T) : result (list T) :=
  for_each (range num_bins) (fun i_bin spectrum =>
    s <- spectrum.[i_bin] ;;
    c <- mlem_correction.[i_bin] ;;
    n <- mlem_normalization.[i_bin] ;;
    assign spectrum i_bin (s *. c /. n)) spectrum.

(** Lines 1343-1349: [continue_mlem], a loop that leaves at the first ratio
    outside the tolerance. *)
Fixpoint check_ratios (error : T) (mlem_ratio : list T) (idxs : list nat)
  : result bool :=
  match idxs with
  | [] => Ok false
  | i_meas :: rest =>
      r <- mlem_ratio.[i_meas] ;;
      if (r >=. one +. error) || (r <=. one -. error) then Ok true
      else check_ratios error mlem_ratio rest
  end.

(** Lines 1265-1339: the body of one iteration, up to the tolerance test. *)
Definition mlem_iteration (num_measurements num_bins : Z) (st : Refs)
  : result Refs :=
  mlem_estimate <-
    apply_response num_measurements num_bins (nns_response st) (spectrum st) ;;
  transpose_response <- transpose num_measurements num_bins (nns_response st) ;;
  ratio <- compute_ratio num_measurements (measurements st) mlem_estimate ;;
  mlem_correction <-
    compute_correction num_measurements num_bins transpose_response ratio ;;
  mlem_normalization <-
    compute_normalization num_measurements num_bins transpose_response ;;
  spectrum' <-
    update_spectrum num_bins mlem_correction mlem_normalization (spectrum st) ;;
  Ok (mkRefs (measurements st) spectrum' (nns_response st) ratio).

(** Line 1264 and lines 1350-1353: the loop
    [for (mlem_index = 1; mlem_index < cutoff; mlem_index++)].  [remaining]
    counts the iterations left before [mlem_index] reaches [cutoff]. *)
Fixpoint mlem_loop (error : T) (num_measurements num_bins : Z)
  (remaining : nat) (mlem_index : Z) (st : Refs) : result (Z * Refs) :=
  match remaining with
  | O => Ok (mlem_index, st)
  | S remaining' =>
      st' <- mlem_iteration num_measurements num_bins st ;;
      continue_mlem <-
        check_ratios error (mlem_ratio st') (range num_measurements) ;;
      if continue_mlem
      then mlem_loop error num_measurements num_bins remaining'
             (mlem_index + 1) st'
      else Ok (mlem_index, st')
  end.

Definition runMLEM (cutoff : Z) (error : T) (num_measurements num_bins : Z)
  (st : Refs) : result (Z * Refs) :=
  mlem_loop error num_measurements num_bins (Z.to_nat (cutoff - 1)) 1 st.

End MLEM.

Arguments Refs T : clear implicits.
Arguments mkRefs {T} _ _ _ _.

(** ** The RMS difference of the sampled spectra ([main], lines 530-565)

    [poissmat[i][k]] is bin [i] of the spectrum unfolded from the [k]-th
    Poisson sample, [spectrum] the spectrum unfolded from the measurements.
    The arrays are [double x[52][1]]: the second index is always 0 and is
    dropped, and the loops run over the literal 52.

    [double sq[52][1];] is declared without an initialiser and is then only
    updated with [+=]: its first read yields whatever the stack holds.  That
    indeterminate content is the argument [sq_uninit].  [sq_average] and [s]
    are written at every index, in order, before they are read. *)

Section RMS.

Context {T : Type} `{Scalar T} `{Sqrt T}.

(** Lines 530-540. *)
Definition sum_squared_difference (num_poisson_samples : Z)
  (poissmat : list (list T)) (spectrum : list T) (sq : list T)
  : result (list T) :=
  for_each (range 52) (fun i sq =>
    for_each (range num_poisson_samples) (fun k sq =>
        row <- poissmat.[i] ;;
        p <- row.[k] ;;
        s <- spectrum.[i] ;;
        q <- sq.[i] ;;
        assign sq i (q +. (p -. s) *. (p -. s))) sq) sq.

(** Lines 546-553. *)
Definition average_squared_difference (num_poisson_samples : Z)
  (sq : list T) : result (list T) :=
  for_each (range 52) (fun i sq_average =>
    q <- sq.[i] ;;
    Ok (sq_average ++ [q /. of_int num_poisson_samples])) [].

(** Lines 558-565. *)
Definition rms_difference (sq_average : list T) : result (list T) :=
  for_each (range 52) (fun i s =>
    a <- sq_average.[i] ;;
    Ok (s ++ [sqrt a])) [].

Definition uncertainty (num_poisson_samples : Z) (poissmat : list (list T))
  (spectrum : list T) (sq_uninit : list T) : result (list T) :=
  sq <- sum_squared_difference num_poisson_samples poissmat spectrum sq_uninit ;;
  sq_average <- average_squared_difference num_poisson_samples sq ;;
  rms_difference sq_average.

End RMS.

(** ** The closed forms of one iteration *)

Section ClosedForms.

Context {T : Type} `{Scalar T}.

Definition vget (v : list T) (i : nat) : T := nth i v zero.

Definition mget (R : list (list T)) (m b : nat) : T := nth b (nth m R []) zero.

(** [sigma n f] is f 0 + f 1 + ... + f (n-1), added from the left to an
    accumulator that starts at 0, the order of the source's loops. *)
Definition sigma (n : nat) (f : nat -> T) : T :=
  fold_left (fun acc i => acc +. f i) (seq 0 n) zero.

Definition estimate_of (M B : nat) (R : list (list T)) (s : list T) : list T :=
  map (fun m => sigma B (fun b => mget R m b *. vget s b)) (seq 0 M).

Definition transpose_of (M B : nat) (R : list (list T)) : list (list T) :=
  map (fun b => map (fun m => mget R m b) (seq 0 M)) (seq 0 B).

Definition ratio_of (M : nat) (meas est : list T) : list T :=
  map (fun m => vget meas m /. vget est m) (seq 0 M).

Definition correction_of (M B : nat) (R : list (list T)) (ratio : list T)
  : list T :=
  map (fun b => sigma M (fun m => mget R m b *. vget ratio m)) (seq 0 B).

Definition normalization_of (M B : nat) (R : list (list T)) : list T :=
  map (fun b => sigma M (fun m => mget R m b)) (seq 0 B).

Definition updated_of (B : nat) (s c n : list T) : list T :=
  map (fun b => vget s b *. vget c b /. vget n b) (seq 0 B).

(** The state after one iteration, in closed form. *)
Definition step_of (M B : nat) (st : Refs T) : Refs T :=
  let R := nns_response st in
  let ratio := ratio_of M (measurements st) (estimate_of M B R (spectrum st)) in
  mkRefs (measurements st)
    (updated_of B (spectrum st) (correction_of M B R ratio)
       (normalization_of M B R))
    R ratio.

(** Matching dimensions: what [checkDimensions] establishes in [main] before
    [runMLEM] is called. *)
Definition well_dimensioned (num_measurements num_bins : Z) (st : Refs T)
  : Prop :=
  length (measurements st) = Z.to_nat num_measurements /\
  length (nns_response st) = Z.to_nat num_measurements /\
  Forall (fun row => length row = Z.to_nat num_bins) (nns_response st) /\
  length (spectrum st) = Z.to_nat num_bins.

(** [n] iterations of the body, without the tolerance test. *)
Fixpoint iterate (num_measurements num_bins : Z) (n : nat) (st : Refs T)
  : result (Refs T) :=
  match n with
  | O => Ok st
  | S n' =>
      st' <- mlem_iteration num_measurements num_bins st ;;
      iterate num_measurements num_bins n' st'
  end.

(** The test of lines 1344-1349 on one ratio, and on a whole vector. *)
Definition outside_tolerance (error r : T) : bool :=
  (r >=. one +. error) || (r <=. one -. error).

Definition within_tolerance (error : T) (ratio : list T) : bool :=
  forallb (fun r => negb (outside_tolerance error r)) ratio.

(** The test of the tolerance as the specification words it: every ratio in
    the closed interval [1 - error, 1 + error]. *)
Definition in_closed_interval (error : T) (ratio : list T) : bool :=
  forallb (fun r => (one -. error <=. r) && (r <=. one +. error)) ratio.

(** Strictly between the bounds of the tolerance. *)
Definition in_open_interval (error r : T) : bool :=
  (one -. error <. r) && (r <. one +. error).

(** The conditions on the input that the specification calls valid. *)
Definition nonneg (x : T) : bool := zero <=. x.

Definition positive (x : T) : bool := zero <. x.

(** A NaN is the only value that is not [<=] itself; [x >= 0] or [x] is a
    NaN. *)
Definition not_a_number (x : T) : bool := negb (x <=. x).

Definition nonneg_or_nan (x : T) : bool := nonneg x || not_a_number x.

Definition response_nonneg (st : Refs T) : bool :=
  forallb (forallb nonneg) (nns_response st).

Definition column_sums_positive (M B : nat) (st : Refs T) : bool :=
  forallb positive (normalization_of M B (nns_response st)).

(** Every estimate computed by the first [n] iterations from [st] is
    positive. *)
Fixpoint estimates_positive (num_measurements num_bins : Z) (n : nat)
  (st : Refs T) : bool :=
  match n with
  | O => true
  | S n' =>
      match apply_response num_measurements num_bins (nns_response st)
              (spectrum st),
            mlem_iteration num_measurements num_bins st with
      | Ok mlem_estimate, Ok st' =>
          forallb positive mlem_estimate
          && estimates_positive num_measurements num_bins n' st'
      | _, _ => false
      end
  end.

End ClosedForms.

(** ** The sign of a binary64 value

    [sign_bit_clear x]: [x] is +0, a positive number, +infinity or a NaN;
    of the values that are [>= 0] or NaN only the negative zero is left
    out.  The two predicates on [spec_float] say the same of the value that
    the IEEE specification of the operations (SpecFloat) gives. *)
Definition sign_bit_clear (x : float) : bool :=
  match classify x with
  | FloatClass.NNormal | FloatClass.NSubn | FloatClass.NZero
  | FloatClass.NInf => false
  | _ => true
  end.

Definition sign_is (s : bool) (x : spec_float) : Prop :=
  match x with
  | S754_zero s' | S754_infinity s' | S754_finite s' _ _ => s' = s
  | S754_nan => True
  end.

Definition not_negative (x : spec_float) : Prop :=
  match x with
  | S754_infinity true | S754_finite true _ _ => False
  | _ => True
  end.

(** ** Concrete inputs *)

(** The scenario of the specification: identity response, measurements
    (2, 3), flat initial spectrum. *)
Definition identity_response : list (list float) := [[1; 0]; [0; 1]]%float.

Definition scenario : Refs float :=
  mkRefs [2; 3]%float [1; 1]%float identity_response [].

(** A spectrum with an empty bin under the same response. *)
Definition collapsed_bin : Refs float :=
  mkRefs [1; 1]%float [0; 1]%float identity_response [].

(** A positive initial spectrum and a channel that measured nothing. *)
Definition silent_channel : Refs float :=
  mkRefs [0; 3]%float [1; 1]%float identity_response [].

(** One channel, one bin, and a ratio that lands on the bound 1 + error for
    error = 0.5 (all values are binary64 numbers). *)
Definition on_the_bound : Refs float :=
  mkRefs [1.5]%float [1]%float [[1]]%float [].

(** The scenario in exact arithmetic. *)
Definition scenario_Q : Refs Q :=
  mkRefs [2; 3]%Q [1; 1]%Q [[1; 0]; [0; 1]]%Q [].

(** A response that mixes the two bins, from which the iteration approaches
    its fixed point slowly. *)
Definition mixing : Refs float :=
  mkRefs [3; 7]%float [1; 1]%float [[2; 1]; [1; 3]]%float [].

(** Values whose products leave the range of binary64. *)
Definition overflowing : Refs float :=
  mkRefs [1e200]%float [1e-200]%float [[1e200]]%float [].

(** A reference spectrum of 52 equal bins, one sampled spectrum equal to it,
    and two possible contents of the uninitialised array [sq]. *)
Definition reference_spectrum : list float := repeat 5%float 52.

Definition one_equal_sample : list (list float) := repeat [5%float] 52.

Definition stack_of_ones : list float := repeat 1%float 52.

Definition stack_of_zeros : list float := repeat 0%float 52.

(** ** The rest of [main] and its helpers (src/mlem/main.cpp)

    Text is a [String.string]; what a function writes to [std::cout] is the
    list of the pieces written, in order.  An exception is the outcome
    [Thrown] with its [what()] text. *)

Local Open Scope string_scope.

Infix "+++" := String.append (at level 60, right associativity).

Definition newline : String.string :=
  String.String (Ascii.ascii_of_nat 10) String.EmptyString.

(** An [int] written with [<<]. *)
Definition string_of_int (z : Z) : String.string :=
  DecimalString.NilZero.string_of_int (Z.to_int z).

Inductive outcome (A : Type) : Type :=
| Returned (a : A)
| Thrown (what : String.string)
| Undefined.
Arguments Returned {A} a.
Arguments Thrown {A} what.
Arguments Undefined {A}.

Definition and_then {A B : Type} (o : outcome A) (k : A -> outcome B)
  : outcome B :=
  match o with
  | Returned a => k a
  | Thrown what => Thrown what
  | Undefined => Undefined
  end.

(** A read or a loop of the kind above inside code that can throw. *)
Definition lift {A : Type} (r : result A) : outcome A :=
  match r with
  | Ok a => Returned a
  | OutOfRange => Undefined
  end.

(** [std::find(v.begin(), v.end(), x)], as the index of the first element
    equal to [x]; [length v] is [v.end()]. *)
Fixpoint find (v : list String.string) (x : String.string) : nat :=
  match v with
  | [] => 0
  | y :: v' => if String.eqb y x then 0 else S (find v' x)
  end.

(** Lines 853-877.  The value returned, [filename] as the call leaves it,
    and what is written to [std::cout]. *)
Definition setfile (arg_vector : list String.string)
  (directory arg_string default_filename filename : String.string)
  : Z * String.string * list String.string :=
  let iter_args := find arg_vector arg_string in
  if negb (iter_args =? length arg_vector)%nat then
    let iter_args := (iter_args + 1)%nat in
    if negb (iter_args =? length arg_vector)%nat then
      (1, directory +++ nth iter_args arg_vector "", [])
    else
      let iter_args := (iter_args - 1)%nat in
      (1, filename,
       ["Error: no file provided for argument: "
        +++ nth iter_args arg_vector "" +++ newline])
  else
    (1, directory +++ default_filename, []).

(** Lines 883-894.  The loop [for (int i=0; i<arg_vector.size(); i++)],
    whose body advances [i] once more after a known flag; [remaining] bounds
    the iterations left.  The result is what is written to [std::cout]. *)
Fixpoint unknown_loop (remaining : nat)
  (arg_vector input_file_flags : list String.string) (i : nat)
  : list String.string :=
  match remaining with
  | O => []
  | S remaining' =>
      if (i <? length arg_vector)%nat then
        let arg := nth i arg_vector "" in
        let iter_args := find input_file_flags arg in
        if (iter_args =? length input_file_flags)%nat then
          ("Warning: Ignored unknown argument " +++ arg +++ newline)
          :: unknown_loop remaining' arg_vector input_file_flags (i + 1)
        else
          unknown_loop remaining' arg_vector input_file_flags (i + 1 + 1)
      else []
  end.

Definition checkUnknownParameters
  (arg_vector input_file_flags : list String.string) : list String.string :=
  unknown_loop (length arg_vector) arg_vector input_file_flags 0.

(** The arguments [checkUnknownParameters] warns about, by recursion on
    the arguments still to be read. *)
Fixpoint unknown_arguments (args input_file_flags : list String.string)
  : list String.string :=
  match args with
  | [] => []
  | arg :: rest =>
      if (find input_file_flags arg =? length input_file_flags)%nat then
        arg :: unknown_arguments rest input_file_flags
      else
        match rest with
        | [] => []
        | _ :: rest' => unknown_arguments rest' input_file_flags
        end
  end.

(** Lines 1252-1259. *)
Definition checkDimensions (reference_size : Z)
  (reference_string : String.string) (test_size : Z)
  (test_string : String.string) : outcome Z :=
  if negb (reference_size =? test_size) then
    Thrown ("File dimensions mismatch: " +++ test_string +++ " ("
            +++ string_of_int test_size +++ ") does not match "
            +++ reference_string +++ " (" +++ string_of_int reference_size
            +++ ")")
  else Returned 1.

(** Lines 912: the text of a configuration line after its first "=", the
    whole line when it has none ([find] gives [npos], and [npos + 1] is 0). *)
Definition token (line : String.string) : String.string :=
  match String.index 0 "=" line with
  | Some pos =>
      String.substring (pos + 1) (String.length line - (pos + 1)) line
  | None => line
  end.

(** A text without the character "=". *)
Definition equals_sign : Ascii.ascii := Ascii.ascii_of_nat 61.

Definition no_equals_sign (s : String.string) : Prop :=
  ~ In equals_sign (String.list_ascii_of_string s).

(** The literal [1e-9]. *)
Class Nano (T : Type) : Type := nano : T.

#[export] Instance float_Nano : Nano float := 1e-9%float.

#[export] Instance Q_Nano : Nano Q := (1 # 1000000000)%Q.

Section Main.

Context {T : Type} `{Scalar T} `{Nano T}.

(** Lines 899-930.  [config_file] is [None] when the file cannot be opened
    and the lines [getline] reads otherwise; [atof] and the conversion of a
    [double] to [int] are those of the C library and of the language.  The
    result is the value returned with the five settings assigned. *)
Variable atof : String.string -> T.
Variable to_int : T -> Z.

Definition setSettings (config_file : option (list String.string))
  : result (bool * option (Z * T * T * T * Z)) :=
  match config_file with
  | Some lines =>
      let settings := map (fun line => atof (token line)) lines in
      s0 <- settings.[0] ;;
      s1 <- settings.[1] ;;
      s2 <- settings.[2] ;;
      s3 <- settings.[3] ;;
      s4 <- settings.[4] ;;
      Ok (true, Some (to_int s0, s1, s2, s3, to_int s4))
  | None => Ok (false, None)
  end.

(** Lines 159-163: charge to counts per second, in the reverse order. *)
Definition measurements_cps (norm f_factor : T) (duration : Z)
  (dose_mu doserate_mu : T) (measurements_nc : list T) : result (list T) :=
  let num_measurements := Z.of_nat (length measurements_nc) in
  for_each (range num_measurements) (fun index measurements =>
    nc <- measurements_nc.[Z.to_nat (num_measurements - Z.of_nat index - 1)] ;;
    Ok (measurements
          ++ [nc *. norm /. f_factor /. of_int duration
              *. (dose_mu /. doserate_mu)])) [].

(** Lines 155, 187, 202-203, 215 and 229: the sizes [main] takes and the
    checks it makes before it calls [runMLEM]. *)
Definition main_checks (measurements_nc energy_bins : list T)
  (nns_response : list (list T)) (initial_spectrum icrp_factors : list T)
  : outcome (Z * Z) :=
  let num_measurements := Z.of_nat (length measurements_nc) in
  let num_bins := Z.of_nat (length energy_bins) in
  and_then (checkDimensions num_measurements "number of measurements"
              (Z.of_nat (length nns_response)) "NNS response") (fun _ =>
  and_then (lift nns_response.[0]) (fun row =>
  and_then (checkDimensions num_bins "number of energy bins"
              (Z.of_nat (length row)) "NNS response") (fun _ =>
  and_then (checkDimensions num_bins "number of energy bins"
              (Z.of_nat (length initial_spectrum)) "Input spectrum") (fun _ =>
  and_then (checkDimensions num_bins "number of energy bins"
              (Z.of_nat (length icrp_factors)) "Number of ICRP factors")
    (fun _ => Returned (num_measurements, num_bins)))))).

(** Lines 155-236: what [main] computes and reads, in order, before it
    calls [runMLEM]: the measurements in counts per second, the eight of
    them it writes to [std::cout] (lines 172-175), the sizes, the checks; the
    result is the arguments of the call of line 236. *)
Definition main_prelude (norm f_factor : T) (duration : Z)
  (dose_mu doserate_mu : T) (measurements_nc energy_bins : list T)
  (nns_response : list (list T)) (initial_spectrum icrp_factors : list T)
  : outcome (Z * Z * Refs T) :=
  and_then (lift (measurements_cps norm f_factor duration dose_mu doserate_mu
                    measurements_nc)) (fun measurements =>
  and_then (lift (for_each (range 8) (fun i shown =>
                    m <- measurements.[i] ;;
                    Ok (shown ++ [m])) [])) (fun _ =>
  and_then (main_checks measurements_nc energy_bins nns_response
              initial_spectrum icrp_factors) (fun sizes =>
  Returned (fst sizes, snd sizes,
            mkRefs measurements initial_spectrum nns_response [])))).

(** Lines 587-616, and lines 451-473 inside the sampling loop: the ambient
    dose equivalent of a spectrum, in mSv/hr. *)
Definition ambient_dose (spectrum icrp_factors : list T) : result T :=
  multiplication <-
    for_each (range 52) (fun i multiplication =>
      s <- spectrum.[i] ;;
      f <- icrp_factors.[i] ;;
      Ok (multiplication ++ [s *. f])) [] ;;
  d <- for_each (range 52) (fun i d =>
         m <- multiplication.[i] ;;
         Ok (d +. m)) zero ;;
  Ok (d *. of_int 3600 *. nano).

(** Lines 349-481: the unfolding of one Poisson sample, written out in
    [main] for 8 measurements and 52 bins.  [trans_respmat] is filled at
    every index before it is read and is built here row by row; [one] is
    the array of eight 1s.  The state of the loop is [ini_poisson] and
    [dose_std]. *)
Definition sample_iteration (nns_response : list (list T))
  (icrp_factors data_poisson ini_poisson : list T)
  : result (list T * T * list T) :=
  d_poisson <-
    for_each (range 8) (fun i0 d_poisson =>
      d <- for_each (range 52) (fun k d =>
             row <- nns_response.[i0] ;;
             r <- row.[k] ;;
             s <- ini_poisson.[k] ;;
             Ok (d +. r *. s)) zero ;;
      Ok (d_poisson ++ [d])) [] ;;
  trans_respmat <- transpose 8 52 nns_response ;;
  r_poisson <-
    for_each (range 8) (fun i3 r_poisson =>
      m <- data_poisson.[i3] ;;
      d <- d_poisson.[i3] ;;
      Ok (r_poisson ++ [zero +. m /. d])) [] ;;
  c_poisson <-
    for_each (range 52) (fun i4 c_poisson =>
      c <- for_each (range 8) (fun k c =>
             col <- trans_respmat.[i4] ;;
             t <- col.[k] ;;
             r <- r_poisson.[k] ;;
             Ok (c +. t *. r)) zero ;;
      Ok (c_poisson ++ [c])) [] ;;
  f_poisson <-
    for_each (range 52) (fun i5 f_poisson =>
      f <- for_each (range 8) (fun k f =>
             col <- trans_respmat.[i5] ;;
             t <- col.[k] ;;
             Ok (f +. t *. one)) zero ;;
      Ok (f_poisson ++ [f])) [] ;;
  ini1_poisson <-
    for_each (range 52) (fun i6 ini1_poisson =>
      s <- ini_poisson.[i6] ;;
      c <- c_poisson.[i6] ;;
      Ok (ini1_poisson ++ [zero +. s *. c])) [] ;;
  ini_poisson' <-
    for_each (range 52) (fun i7 ini_poisson =>
      s <- ini1_poisson.[i7] ;;
      f <- f_poisson.[i7] ;;
      assign ini_poisson i7 (zero +. s /. f)) ini_poisson ;;
  dose_std <- ambient_dose ini_poisson' icrp_factors ;;
  Ok (ini_poisson', dose_std, r_poisson).

(** Line 477: the test that leaves the loop. *)
Definition sample_converged (error : T) (r_poisson : list T) : bool :=
  forallb (fun r => (r <. one +. error) && (one -. error <. r)) r_poisson.

Fixpoint sample_loop (error : T) (nns_response : list (list T))
  (icrp_factors data_poisson : list T) (remaining : nat)
  (ini_poisson : list T) (dose_std : T) : result (list T * T) :=
  match remaining with
  | O => Ok (ini_poisson, dose_std)
  | S remaining' =>
      it <- sample_iteration nns_response icrp_factors data_poisson
              ini_poisson ;;
      let '(ini_poisson', dose_std', r_poisson) := it in
      if sample_converged error r_poisson then Ok (ini_poisson', dose_std')
      else sample_loop error nns_response icrp_factors data_poisson
             remaining' ini_poisson' dose_std'
  end.

Definition unfold_sample (cutoff : Z) (error : T)
  (nns_response : list (list T)) (icrp_factors data_poisson : list T)
  (ini_poisson : list T) (dose_std : T) : result (list T * T) :=
  sample_loop error nns_response icrp_factors data_poisson
    (Z.to_nat (cutoff - 1)) ini_poisson dose_std.

End Main.

(** ** The schedule of iteration counts of
       src/unfolding/source/auto_unfold_spectrum.cpp

    Lines 210-223 (and again 291-303, 381-390, 555-564): the loop that turns
    the iteration counts asked for into the count passed to each call of the
    solver, and keeps their running total.  The result is the counts passed,
    in order, and the totals written beside them.  The counts are [int]s,
    32 bits wide; a difference or a sum outside their range is undefined in
    C++ and is [OutOfRange] here. *)

Definition int_max : Z := 2147483647.

(** The value of an [int] expression. *)
Definition int_value (z : Z) : result Z :=
  if (- int_max - 1 <=? z) && (z <=? int_max) then Ok z else OutOfRange.

(** Lines 210-223. *)
Definition iteration_schedule (num_iterations_vector : list Z)
  : result (list Z * list Z * Z) :=
  let num_iteration_samples := Z.of_nat (length num_iterations_vector) in
  for_each (range num_iteration_samples) (fun i_num st =>
    let '(calls, totals, total_num_iterations) := st in
    num_iterations <-
      (if (i_num =? 0)%nat then num_iterations_vector.[i_num]
       else a <- num_iterations_vector.[i_num] ;;
            b <- num_iterations_vector.[i_num - 1] ;;
            int_value (a - b)) ;;
    total_num_iterations <- int_value (total_num_iterations + num_iterations) ;;
    Ok (calls ++ [num_iterations], totals ++ [total_num_iterations],
        total_num_iterations)) ([], [], 0).

(** The count passed to the [i]-th call: the first count asked for, then
    the difference of each count from the one before. *)
Definition increments (num_iterations_vector : list Z) : list Z :=
  map (fun i => if (i =? 0)%nat then nth i num_iterations_vector 0
                else nth i num_iterations_vector 0
                     - nth (i - 1) num_iterations_vector 0)
    (seq 0 (length num_iterations_vector)).

(** ** Inputs of [main] used below *)

(** Eight charges, and a response for two energy bins. *)
Definition eight_charges : list Q := [1; 2; 3; 4; 5; 6; 7; 8]%Q.

Definition two_bins : list Q := [1; 2]%Q.

Definition two_bin_response : list (list Q) := repeat [1; 1]%Q 8.

(** The same response with its fourth row cut short. *)
Definition jagged_response : list (list Q) :=
  repeat [1; 1]%Q 3 ++ [[1]%Q] ++ repeat [1; 1]%Q 4.

(** A sample of eight counts over the 52 bins of [main], and a spectrum of
    53 bins. *)
Definition flat_response : list (list float) := repeat (repeat 1%float 52) 8.

Definition flat_counts : list float := repeat 52%float 8.

Definition flat_spectrum : list float := repeat 1%float 52.

(** The same spectrum with the negative zero in its first bin. *)
Definition flat_spectrum_negative_zero : list float :=
  (-0)%float :: repeat 1%float 51.

(** Stand-ins for [atof] and for the conversion to [int]: the length of
    the text, and the truncation toward zero. *)
Definition length_atof (s : String.string) : Q :=
  inject_Z (Z.of_nat (String.length s)).

Definition truncate (q : Q) : Z := Z.quot (Qnum q) (Z.pos (Qden q)).

Local Close Scope string_scope.

(** * Lemmas and theorems *)

(** ** Loops *)

Lemma bind_Ok {A B : Type} (r : result A) (k : A -> result B) (b : B) :
  bind r k = Ok b <-> exists a, r = Ok a /\ k a = Ok b.
Proof.
  destruct r as [a|]; simpl; split.
  - intros E. exists a. split; [reflexivity | exact E].
  - intros [a' [E1 E2]]. injection E1 as ->. exact E2.
  - discriminate.
  - intros [a' [E1 _]]. discriminate.
Qed.

Lemma bind_of_Ok {A B : Type} (a : A) (k : A -> result B) :
  bind (Ok a) k = k a.
Proof. reflexivity. Qed.

Ltac inv_bind H :=
  let a := fresh "a" in
  let E := fresh "E" in
  apply bind_Ok in H; destruct H as [a [E H]].

Lemma at_nth {A : Type} (v : list A) (i : nat) (d : A) :
  (i < length v)%nat -> v.[i] = Ok (nth i v d).
Proof.
  intros Hi. unfold at_.
  rewrite (nth_error_nth' v d Hi). reflexivity.
Qed.

Lemma for_each_fold {St : Type} (idxs : list nat)
  (body : nat -> St -> result St) (h : St -> nat -> St) :
  (forall i s, In i idxs -> body i s = Ok (h s i)) ->
  forall s, for_each idxs body s = Ok (fold_left h idxs s).
Proof.
  induction idxs as [|i rest IH]; intros Hb s; simpl.
  - reflexivity.
  - rewrite Hb by (left; reflexivity). simpl.
    apply IH. intros j s' Hj. apply Hb. right. exact Hj.
Qed.

Lemma fold_left_push {A : Type} (g : nat -> A) (idxs : list nat) (acc : list A) :
  fold_left (fun v i => v ++ [g i]) idxs acc = acc ++ map g idxs.
Proof.
  revert acc. induction idxs as [|i rest IH]; intros acc; simpl.
  - rewrite app_nil_r. reflexivity.
  - rewrite IH, <- app_assoc. reflexivity.
Qed.

(** A loop of [push_back]s builds the vector of the pushed values. *)
Lemma for_each_push {A : Type} (idxs : list nat)
  (body : nat -> list A -> result (list A)) (g : nat -> A) (acc : list A) :
  (forall i v, In i idxs -> body i v = Ok (v ++ [g i])) ->
  for_each idxs body acc = Ok (acc ++ map g idxs).
Proof.
  intros Hb.
  rewrite (for_each_fold idxs body (fun v i => v ++ [g i]) Hb).
  rewrite fold_left_push. reflexivity.
Qed.

Lemma for_each_push_length {A : Type} (idxs : list nat)
  (body : nat -> list A -> result (list A)) :
  (forall i v v', body i v = Ok v' -> length v' = S (length v)) ->
  forall acc v, for_each idxs body acc = Ok v ->
  length v = (length acc + length idxs)%nat.
Proof.
  intros Hb. induction idxs as [|i rest IH]; intros acc v E; simpl in E.
  - injection E as <-. simpl. lia.
  - inv_bind E. apply Hb in E0. apply IH in E. simpl. lia.
Qed.

Lemma nth_map_seq {A : Type} (f : nat -> A) (n i : nat) (d : A) :
  (i < n)%nat -> nth i (map f (seq 0 n)) d = f i.
Proof.
  intros Hi.
  rewrite (nth_indep _ d (f 0%nat)) by (rewrite length_map, length_seq; lia).
  rewrite map_nth, seq_nth by lia. reflexivity.
Qed.

Lemma in_range (n : Z) (i : nat) : In i (range n) <-> (i < Z.to_nat n)%nat.
Proof. unfold range. rewrite in_seq. lia. Qed.

(** ** Each stage of the iteration computes its closed form *)

Section Stages.

Context {T : Type} `{Scalar T}.

Lemma vget_at (v : list T) (i : nat) :
  (i < length v)%nat -> v.[i] = Ok (vget v i).
Proof. apply at_nth. Qed.

Lemma mget_at {A : Type} (R : list (list T)) (M B m b : nat)
  (k : T -> result A) :
  length R = M -> Forall (fun row => length row = B) R ->
  (m < M)%nat -> (b < B)%nat ->
  (row <- R.[m] ;; r <- row.[b] ;; k r) = k (mget R m b).
Proof.
  intros HM HB Hm Hb.
  rewrite (at_nth R m []) by lia. simpl.
  assert (Hrow : length (nth m R []) = B).
  { rewrite Forall_forall in HB. apply HB. apply nth_In. lia. }
  rewrite (at_nth _ b zero) by lia. reflexivity.
Qed.

Lemma length_estimate_of M B R s : length (estimate_of M B R s) = M.
Proof. unfold estimate_of. rewrite length_map, length_seq. reflexivity. Qed.

Lemma length_ratio_of M meas est : length (ratio_of M meas est) = M.
Proof. unfold ratio_of. rewrite length_map, length_seq. reflexivity. Qed.

Lemma length_correction_of M B R r : length (correction_of M B R r) = B.
Proof. unfold correction_of. rewrite length_map, length_seq. reflexivity. Qed.

Lemma length_normalization_of M B R : length (normalization_of M B R) = B.
Proof. unfold normalization_of. rewrite length_map, length_seq. reflexivity. Qed.

Lemma length_updated_of B s c n : length (updated_of B s c n) = B.
Proof. unfold updated_of. rewrite length_map, length_seq. reflexivity. Qed.

Lemma vget_map_seq (f : nat -> T) (n i : nat) :
  (i < n)%nat -> vget (map f (seq 0 n)) i = f i.
Proof. intros Hi. unfold vget. apply nth_map_seq. exact Hi. Qed.

Lemma mget_transpose_of M B R b m :
  (b < B)%nat -> (m < M)%nat -> mget (transpose_of M B R) b m = mget R m b.
Proof.
  intros Hb Hm. unfold mget at 1, transpose_of.
  rewrite nth_map_seq by exact Hb.
  rewrite nth_map_seq by exact Hm. reflexivity.
Qed.

Lemma transpose_of_dims M B R :
  length (transpose_of M B R) = B /\
  Forall (fun col => length col = M) (transpose_of M B R).
Proof.
  unfold transpose_of. split.
  - rewrite length_map, length_seq. reflexivity.
  - apply Forall_forall. intros col Hin.
    apply in_map_iff in Hin. destruct Hin as [b [<- _]].
    rewrite length_map, length_seq. reflexivity.
Qed.

Variables num_measurements num_bins : Z.

Let M := Z.to_nat num_measurements.
Let B := Z.to_nat num_bins.

Lemma apply_response_ok (R : list (list T)) (s : list T) :
  length R = M -> Forall (fun row => length row = B) R -> length s = B ->
  apply_response num_measurements num_bins R s = Ok (estimate_of M B R s).
Proof.
  intros HM HB Hs. unfold apply_response, estimate_of.
  apply (for_each_push _ _ _ []).
  intros m v Hm. apply in_range in Hm.
  rewrite (for_each_fold (range num_bins) _
             (fun acc b => acc +. mget R m b *. vget s b)).
  - reflexivity.
  - intros b acc Hb. apply in_range in Hb.
    rewrite (mget_at R M B) by (assumption || exact Hm || exact Hb).
    rewrite vget_at by (rewrite Hs; exact Hb). reflexivity.
Qed.

Lemma transpose_ok (R : list (list T)) :
  length R = M -> Forall (fun row => length row = B) R ->
  transpose num_measurements num_bins R = Ok (transpose_of M B R).
Proof.
  intros HM HB. unfold transpose, transpose_of.
  apply (for_each_push _ _ _ []).
  intros b v Hb. apply in_range in Hb.
  rewrite (for_each_push _ _ (fun m => mget R m b) []).
  - reflexivity.
  - intros m col Hm. apply in_range in Hm.
    apply (mget_at R M B); assumption.
Qed.

Lemma compute_ratio_ok (meas est : list T) :
  length meas = M -> length est = M ->
  compute_ratio num_measurements meas est = Ok (ratio_of M meas est).
Proof.
  intros Hmeas Hest. unfold compute_ratio, ratio_of.
  apply (for_each_push _ _ _ []).
  intros m v Hm. apply in_range in Hm.
  rewrite !vget_at by (rewrite ?Hmeas, ?Hest; exact Hm). reflexivity.
Qed.

Lemma compute_correction_ok (R : list (list T)) (ratio : list T) :
  length ratio = M ->
  compute_correction num_measurements num_bins (transpose_of M B R) ratio
  = Ok (correction_of M B R ratio).
Proof.
  intros Hr. unfold compute_correction, correction_of.
  destruct (transpose_of_dims M B R) as [HtB HtM].
  apply (for_each_push _ _ _ []).
  intros b v Hb. apply in_range in Hb.
  rewrite (for_each_fold (range num_measurements) _
             (fun acc m => acc +. mget R m b *. vget ratio m)).
  - reflexivity.
  - intros m acc Hm. apply in_range in Hm.
    rewrite (mget_at (transpose_of M B R) B M)
      by (assumption || exact Hm || exact Hb).
    rewrite vget_at by (rewrite Hr; exact Hm).
    rewrite mget_transpose_of by assumption. reflexivity.
Qed.

Lemma compute_normalization_ok (R : list (list T)) :
  compute_normalization num_measurements num_bins (transpose_of M B R)
  = Ok (normalization_of M B R).
Proof.
  unfold compute_normalization, normalization_of.
  destruct (transpose_of_dims M B R) as [HtB HtM].
  apply (for_each_push _ _ _ []).
  intros b v Hb. apply in_range in Hb.
  rewrite (for_each_fold (range num_measurements) _
             (fun acc m => acc +. mget R m b)).
  - reflexivity.
  - intros m acc Hm. apply in_range in Hm.
    rewrite (mget_at (transpose_of M B R) B M)
      by (assumption || exact Hm || exact Hb).
    rewrite mget_transpose_of by assumption. reflexivity.
Qed.

End Stages.

(** ** The in-place update of the spectrum *)

Lemma length_set_nth {A : Type} (v : list A) (i : nat) (x : A) :
  length (set_nth v i x) = length v.
Proof.
  revert i. induction v as [|y v IH]; intros [|i]; simpl; try reflexivity.
  rewrite IH. reflexivity.
Qed.

Lemma nth_set_nth {A : Type} (v : list A) (i j : nat) (x d : A) :
  (i < length v)%nat ->
  nth j (set_nth v i x) d = if (j =? i)%nat then x else nth j v d.
Proof.
  revert i j. induction v as [|y v IH]; intros i j Hi; simpl in Hi.
  - lia.
  - destruct i as [|i], j as [|j]; simpl; try reflexivity.
    apply IH. lia.
Qed.

Lemma set_nth_set_nth {A : Type} (v : list A) (i : nat) (x y : A) :
  set_nth (set_nth v i x) i y = set_nth v i y.
Proof.
  revert i. induction v as [|z v IH]; intros [|i]; simpl; try reflexivity.
  rewrite IH. reflexivity.
Qed.

Lemma set_nth_same {A : Type} (v : list A) (i : nat) (d : A) :
  set_nth v i (nth i v d) = v.
Proof.
  revert i. induction v as [|z v IH]; intros [|i]; simpl; try reflexivity.
  rewrite IH. reflexivity.
Qed.

Lemma assign_ok {A : Type} (v : list A) (i : nat) (x : A) :
  (i < length v)%nat -> assign v i x = Ok (set_nth v i x).
Proof.
  intros Hi. unfold assign. apply Nat.ltb_lt in Hi. rewrite Hi. reflexivity.
Qed.

Section InPlace.

Context {T : Type} `{Scalar T}.

(** A loop whose body at index [i] overwrites element [i] with a function
    [F i] of its old value. *)
Variable body : nat -> list T -> result (list T).
Variable F : nat -> T -> T.

(** After the indices [k .. k+len-1] the elements visited hold their new
    value, the others are untouched. *)
Lemma for_each_in_place (len : nat) :
  forall (k : nat) (sp : list T),
    (k + len <= length sp)%nat ->
    (forall i v, (k <= i < k + len)%nat -> length v = length sp ->
                 body i v = Ok (set_nth v i (F i (vget v i)))) ->
    exists sp',
      for_each (seq k len) body sp = Ok sp' /\
      length sp' = length sp /\
      forall i, vget sp' i =
                if ((k <=? i) && (i <? k + len))%nat
                then F i (vget sp i) else vget sp i.
Proof.
  induction len as [|len IH]; intros k sp Hs Hb; simpl.
  - exists sp. split; [reflexivity|]. split; [reflexivity|].
    intros i. destruct (k <=? i)%nat eqn:E1; simpl; [|reflexivity].
    replace (i <? k + 0)%nat with false; [reflexivity|].
    symmetry. apply Nat.ltb_ge. apply Nat.leb_le in E1. lia.
  - rewrite Hb by lia. simpl.
    set (sp1 := set_nth sp k (F k (vget sp k))).
    assert (Hlen1 : length sp1 = length sp) by apply length_set_nth.
    destruct (IH (S k) sp1) as [sp' [E [Hlen Hnth]]].
    + lia.
    + intros i v Hi Hv. apply Hb; lia.
    + exists sp'. split; [exact E|]. split; [lia|].
      intros i. rewrite Hnth.
      assert (Hsp1 : vget sp1 i =
                     if (i =? k)%nat then F k (vget sp k) else vget sp i).
      { unfold vget, sp1. apply nth_set_nth. lia. }
      destruct (i =? k)%nat eqn:Eik.
      * apply Nat.eqb_eq in Eik. subst i.
        replace (S k <=? k)%nat with false
          by (symmetry; apply Nat.leb_gt; lia).
        replace (k <=? k)%nat with true by (symmetry; apply Nat.leb_le; lia).
        replace (k <? k + S len)%nat with true
          by (symmetry; apply Nat.ltb_lt; lia).
        simpl. exact Hsp1.
      * apply Nat.eqb_neq in Eik. rewrite Hsp1.
        destruct (S k <=? i)%nat eqn:E1;
          destruct (k <=? i)%nat eqn:E2;
          destruct (i <? S k + len)%nat eqn:E3;
          destruct (i <? k + S len)%nat eqn:E4;
          simpl; try reflexivity; exfalso;
          rewrite ?Nat.leb_le, ?Nat.leb_gt, ?Nat.ltb_lt, ?Nat.ltb_ge in *; lia.
Qed.

(** The whole vector visited: the result is a [map] over the indices. *)
Lemma for_each_in_place_all (sp : list T) :
  (forall i v, (i < length sp)%nat -> length v = length sp ->
               body i v = Ok (set_nth v i (F i (vget v i)))) ->
  for_each (seq 0 (length sp)) body sp
  = Ok (map (fun i => F i (vget sp i)) (seq 0 (length sp))).
Proof.
  intros Hb.
  destruct (for_each_in_place (length sp) 0 sp) as [sp' [E [Hlen Hnth]]].
  - simpl. lia.
  - intros i v Hi Hv. apply Hb; lia.
  - rewrite E. f_equal. apply (nth_ext _ _ zero zero).
    + rewrite length_map, length_seq. exact Hlen.
    + intros i Hi. fold (vget sp' i). rewrite Hnth.
      replace ((0 <=? i) && (i <? 0 + length sp))%nat with true.
      * symmetry. apply (nth_map_seq (fun i => F i (vget sp i))). lia.
      * symmetry. apply andb_true_iff. split.
        -- apply Nat.leb_le. lia.
        -- apply Nat.ltb_lt. simpl. lia.
Qed.

End InPlace.

Section Update.

Context {T : Type} `{Scalar T}.

Lemma update_spectrum_ok (num_bins : Z) (c n sp : list T) :
  length sp = Z.to_nat num_bins -> length c = Z.to_nat num_bins ->
  length n = Z.to_nat num_bins ->
  update_spectrum num_bins c n sp = Ok (updated_of (Z.to_nat num_bins) sp c n).
Proof.
  intros Hs Hc Hn. unfold update_spectrum, range, updated_of.
  rewrite <- Hs.
  apply (for_each_in_place_all _ (fun i x => x *. vget c i /. vget n i)).
  intros i v Hi Hv.
  rewrite !vget_at by lia. simpl.
  apply assign_ok. lia.
Qed.

End Update.

(** ** One iteration *)

Section Iteration.

Context {T : Type} `{Scalar T}.

Variables num_measurements num_bins : Z.

Lemma mlem_iteration_ok (st : Refs T) :
  well_dimensioned num_measurements num_bins st ->
  mlem_iteration num_measurements num_bins st
  = Ok (step_of (Z.to_nat num_measurements) (Z.to_nat num_bins) st).
Proof.
  intros [Hmeas [HR [Hrows Hs]]]. unfold mlem_iteration, step_of.
  rewrite apply_response_ok by assumption. simpl.
  rewrite transpose_ok by assumption. simpl.
  rewrite compute_ratio_ok by (assumption || apply length_estimate_of). simpl.
  rewrite compute_correction_ok by apply length_ratio_of. simpl.
  rewrite compute_normalization_ok. simpl.
  rewrite update_spectrum_ok
    by (assumption || apply length_correction_of
        || apply length_normalization_of).
  reflexivity.
Qed.

Lemma well_dimensioned_step (st : Refs T) :
  well_dimensioned num_measurements num_bins st ->
  well_dimensioned num_measurements num_bins
    (step_of (Z.to_nat num_measurements) (Z.to_nat num_bins) st).
Proof.
  intros [Hmeas [HR [Hrows Hs]]]. unfold well_dimensioned, step_of. simpl.
  repeat split; try assumption. apply length_updated_of.
Qed.

Lemma compute_ratio_length (meas est ratio : list T) :
  compute_ratio num_measurements meas est = Ok ratio ->
  length ratio = Z.to_nat num_measurements.
Proof.
  intros E. unfold compute_ratio in E.
  apply for_each_push_length in E.
  - unfold range in E. rewrite length_seq in E. exact E.
  - intros i v v' Eb. inv_bind Eb. inv_bind Eb. injection Eb as <-.
    rewrite length_app. simpl. lia.
Qed.

(** What one iteration leaves alone, whatever the dimensions. *)
Lemma mlem_iteration_frame (st st' : Refs T) :
  mlem_iteration num_measurements num_bins st = Ok st' ->
  measurements st' = measurements st /\
  nns_response st' = nns_response st /\
  length (mlem_ratio st') = Z.to_nat num_measurements.
Proof.
  intros E. unfold mlem_iteration in E.
  inv_bind E. inv_bind E. inv_bind E. inv_bind E. inv_bind E. inv_bind E.
  injection E as <-. simpl. repeat split.
  eapply compute_ratio_length. eassumption.
Qed.

Lemma iterate_ok (n : nat) (st : Refs T) :
  well_dimensioned num_measurements num_bins st ->
  exists st', iterate num_measurements num_bins n st = Ok st' /\
              well_dimensioned num_measurements num_bins st'.
Proof.
  revert st. induction n as [|n IH]; intros st Hd; simpl.
  - exists st. split; [reflexivity | exact Hd].
  - rewrite mlem_iteration_ok by exact Hd. simpl.
    apply IH. apply well_dimensioned_step. exact Hd.
Qed.

(** Every iteration of a run applies the closed form of the step. *)
Lemma iterate_closed_form (n : nat) (st : Refs T) :
  well_dimensioned num_measurements num_bins st ->
  iterate num_measurements num_bins n st
  = Ok (Nat.iter n
          (step_of (Z.to_nat num_measurements) (Z.to_nat num_bins)) st).
Proof.
  revert st. induction n as [|n IH]; intros st Hd.
  - reflexivity.
  - cbn [iterate]. rewrite mlem_iteration_ok by exact Hd.
    rewrite bind_of_Ok, IH by (apply well_dimensioned_step; exact Hd).
    f_equal. symmetry. apply Nat.iter_succ_r.
Qed.

Lemma iterate_add (a b : nat) (st st1 : Refs T) :
  iterate num_measurements num_bins a st = Ok st1 ->
  iterate num_measurements num_bins (a + b) st
  = iterate num_measurements num_bins b st1.
Proof.
  revert st. induction a as [|a IH]; intros st E; simpl in E; simpl.
  - injection E as <-. reflexivity.
  - inv_bind E. rewrite E0. simpl. apply IH. exact E.
Qed.

Lemma iterate_frame (n : nat) (st st' : Refs T) :
  iterate num_measurements num_bins n st = Ok st' ->
  measurements st' = measurements st /\ nns_response st' = nns_response st.
Proof.
  revert st. induction n as [|n IH]; intros st E; simpl in E.
  - injection E as <-. split; reflexivity.
  - inv_bind E. apply mlem_iteration_frame in E0.
    destruct E0 as [Hm [HR _]]. apply IH in E. destruct E as [Hm' HR'].
    split; congruence.
Qed.

End Iteration.

(** ** The tolerance test and the loop *)

Section Loop.

Context {T : Type} `{Scalar T}.

Variable error : T.

Lemma check_ratios_from (rest pre : list T) :
  check_ratios error (pre ++ rest) (seq (length pre) (length rest))
  = Ok (existsb (outside_tolerance error) rest).
Proof.
  revert pre. induction rest as [|r rest IH]; intros pre; simpl.
  - reflexivity.
  - assert (E : (pre ++ r :: rest).[length pre] = Ok r).
    { unfold at_. rewrite nth_error_app2 by lia.
      rewrite Nat.sub_diag. reflexivity. }
    rewrite E. simpl. fold (outside_tolerance error r).
    destruct (outside_tolerance error r); simpl; [reflexivity|].
    specialize (IH (pre ++ [r])).
    rewrite <- app_assoc, length_app in IH. simpl in IH.
    rewrite Nat.add_1_r in IH. exact IH.
Qed.

Lemma existsb_outside (ratio : list T) :
  existsb (outside_tolerance error) ratio = negb (within_tolerance error ratio).
Proof.
  unfold within_tolerance. induction ratio as [|r ratio IH]; simpl.
  - reflexivity.
  - rewrite IH, negb_andb, negb_involutive. reflexivity.
Qed.

Lemma within_tolerance_iff (ratio : list T) :
  within_tolerance error ratio = true <->
  forall r, In r ratio ->
            (r >=. one +. error) = false /\ (r <=. one -. error) = false.
Proof.
  unfold within_tolerance. rewrite forallb_forall.
  split; intros Hall r Hr; specialize (Hall r Hr).
  - apply negb_true_iff in Hall. apply orb_false_iff in Hall. exact Hall.
  - apply negb_true_iff. apply orb_false_iff. exact Hall.
Qed.

(** The loop of lines 1344-1349 sets [continue_mlem] exactly when some ratio
    fails the test. *)
Lemma check_ratios_ok (num_measurements : Z) (ratio : list T) :
  length ratio = Z.to_nat num_measurements ->
  check_ratios error ratio (range num_measurements)
  = Ok (negb (within_tolerance error ratio)).
Proof.
  intros Hlen. unfold range. rewrite <- Hlen.
  rewrite <- existsb_outside. apply (check_ratios_from ratio []).
Qed.

Variables num_measurements num_bins : Z.

Let loop := mlem_loop error num_measurements num_bins.
Let iter := iterate num_measurements num_bins.

(** How the loop can end: at the [k]-th iteration, the first whose ratios
    all pass the test, or with the counter at its bound. *)
Lemma mlem_loop_inv (n : nat) :
  forall (idx : Z) (st : Refs T) (idx' : Z) (st' : Refs T),
    loop n idx st = Ok (idx', st') ->
    exists k : nat,
      (k <= n)%nat /\
      iter k st = Ok st' /\
      (forall j st_j, (1 <= j < k)%nat -> iter j st = Ok st_j ->
                      within_tolerance error (mlem_ratio st_j) = false) /\
      (((1 <= k)%nat /\ idx' = idx + Z.of_nat k - 1 /\
        within_tolerance error (mlem_ratio st') = true)
       \/
       (k = n /\ idx' = idx + Z.of_nat n /\
        ((1 <= n)%nat -> within_tolerance error (mlem_ratio st') = false))).
Proof.
  induction n as [|n IH]; intros idx st idx' st' E; unfold loop in E;
    simpl in E.
  - injection E as <- <-. exists 0%nat.
    split; [lia|]. split; [reflexivity|]. split; [intros; lia|].
    right. split; [reflexivity|]. split; lia.
  - inv_bind E. rename a into st1. inv_bind E. rename a into continue_mlem.
    pose proof (mlem_iteration_frame _ _ _ _ E0) as [_ [_ Hlen]].
    rewrite (check_ratios_ok _ _ Hlen) in E1. injection E1 as <-.
    destruct (within_tolerance error (mlem_ratio st1)) eqn:Ew; simpl in E.
    + injection E as <- <-. exists 1%nat.
      split; [lia|]. split; [|split; [intros; lia|]].
      * unfold iter. simpl. rewrite E0. reflexivity.
      * left. split; [lia|]. split; [lia | exact Ew].
    + apply IH in E. destruct E as [k [Hk [Eit [Hmid Hend]]]].
      exists (S k). split; [lia|]. split.
      * unfold iter. simpl. rewrite E0. exact Eit.
      * split.
        -- intros j st_j Hj Ej. destruct j as [|j]; [lia|].
           unfold iter in Ej. simpl in Ej. rewrite E0 in Ej. simpl in Ej.
           destruct j as [|j].
           ++ simpl in Ej. injection Ej as <-. exact Ew.
           ++ apply (Hmid (S j)); [lia | exact Ej].
        -- destruct Hend as [[Hk1 [Hidx Hw]] | [Hkn [Hidx Hw]]].
           ++ left. split; [lia|]. split; [lia | exact Hw].
           ++ right. subst k. split; [reflexivity|]. split; [lia|].
              intros _. destruct n as [|n].
              ** unfold iter in Eit. simpl in Eit. injection Eit as <-.
                 exact Ew.
              ** apply Hw. lia.
Qed.

(** On matching dimensions the loop always returns. *)
Lemma mlem_loop_returns (n : nat) :
  forall (idx : Z) (st : Refs T),
    well_dimensioned num_measurements num_bins st ->
    exists idx' st', loop n idx st = Ok (idx', st') /\
                     well_dimensioned num_measurements num_bins st'.
Proof.
  induction n as [|n IH]; intros idx st Hd; unfold loop; simpl.
  - exists idx, st. split; [reflexivity | exact Hd].
  - rewrite mlem_iteration_ok by exact Hd. simpl.
    pose proof (well_dimensioned_step _ _ _ Hd) as Hd'.
    rewrite check_ratios_ok by (simpl; apply length_ratio_of). simpl.
    destruct (within_tolerance error _); simpl.
    + eexists _, _. split; [reflexivity | exact Hd'].
    + apply IH. exact Hd'.
Qed.

(** The counter only offsets the value returned. *)
Lemma mlem_loop_shift (n : nat) (d : Z) :
  forall (idx idx' : Z) (st st' : Refs T),
    loop n idx st = Ok (idx', st') ->
    loop n (idx + d) st = Ok (idx' + d, st').
Proof.
  induction n as [|n IH]; intros idx idx' st st' E; unfold loop in E |- *;
    simpl in E; simpl.
  - injection E as <- <-. reflexivity.
  - inv_bind E. rename a into st1. inv_bind E. rename a into continue_mlem.
    rewrite E0. simpl. rewrite E1. simpl.
    destruct continue_mlem.
    + replace (idx + d + 1) with (idx + 1 + d) by lia. apply IH. exact E.
    + injection E as <- <-. reflexivity.
Qed.

(** A run that reaches the bound of its counter can be continued. *)
Lemma mlem_loop_app (a b : nat) :
  forall (idx idx' : Z) (st st1 : Refs T),
    idx' = idx + Z.of_nat a ->
    loop a idx st = Ok (idx', st1) ->
    loop (a + b) idx st = loop b idx' st1.
Proof.
  induction a as [|a IH]; intros idx idx' st st1 Hi E; unfold loop in E |- *;
    simpl in E.
  - injection E as Ei Es. subst st1. simpl. f_equal. lia.
  - inv_bind E. rename a0 into st'. inv_bind E. rename a0 into continue_mlem.
    simpl. rewrite E0. simpl. rewrite E1. simpl.
    destruct continue_mlem.
    + apply IH; [lia | exact E].
    + injection E as Ei _. lia.
Qed.

End Loop.

(** ** The properties *)

Section Properties.

Context {T : Type} `{Scalar T}.

Lemma runMLEM_inv (cutoff : Z) (error : T) (num_measurements num_bins : Z)
  (st : Refs T) (idx : Z) (st' : Refs T) :
  runMLEM cutoff error num_measurements num_bins st = Ok (idx, st') ->
  exists k : nat,
    (k <= Z.to_nat (cutoff - 1))%nat /\
    iterate num_measurements num_bins k st = Ok st' /\
    (forall j st_j, (1 <= j < k)%nat ->
                    iterate num_measurements num_bins j st = Ok st_j ->
                    within_tolerance error (mlem_ratio st_j) = false) /\
    (((1 <= k)%nat /\ idx = Z.of_nat k /\
      within_tolerance error (mlem_ratio st') = true)
     \/
     (k = Z.to_nat (cutoff - 1) /\ idx = Z.max 1 cutoff /\
      (1 < cutoff -> within_tolerance error (mlem_ratio st') = false))).
Proof.
  intros E. unfold runMLEM in E. apply mlem_loop_inv in E.
  destruct E as [k [Hk [Eit [Hmid Hend]]]].
  exists k. split; [exact Hk|]. split; [exact Eit|]. split; [exact Hmid|].
  destruct Hend as [[Hk1 [Hidx Hw]] | [Hkn [Hidx Hw]]].
  - left. split; [exact Hk1|]. split; [lia | exact Hw].
  - right. split; [exact Hkn|]. split; [lia|].
    intros Hc. apply Hw. lia.
Qed.

(** C1. On inputs of matching dimensions, one iteration of [runMLEM]
    computes estimate[m] as the sum over the bins b of
    response[m][b] * spectrum[b], ratio[m] as measurements[m] / estimate[m],
    correction[b] as the sum over the measurements m of
    response[m][b] * ratio[m], the normalisation of bin b as the sum over m
    of response[m][b], and replaces spectrum[b] by
    spectrum[b] * correction[b] / normalisation[b]. *)
Theorem mlem_iteration_formulas (num_measurements num_bins : Z) (st : Refs T) :
  well_dimensioned num_measurements num_bins st ->
  let M := Z.to_nat num_measurements in
  let B := Z.to_nat num_bins in
  let response := nns_response st in
  exists estimate transpose_response correction normalized_response st',
    apply_response num_measurements num_bins response (spectrum st)
    = Ok estimate /\
    transpose num_measurements num_bins response = Ok transpose_response /\
    compute_ratio num_measurements (measurements st) estimate
    = Ok (mlem_ratio st') /\
    compute_correction num_measurements num_bins transpose_response
      (mlem_ratio st') = Ok correction /\
    compute_normalization num_measurements num_bins transpose_response
    = Ok normalized_response /\
    update_spectrum num_bins correction normalized_response (spectrum st)
    = Ok (spectrum st') /\
    mlem_iteration num_measurements num_bins st = Ok st' /\
    (forall m, (m < M)%nat ->
       vget estimate m
       = sigma B (fun b => mget response m b *. vget (spectrum st) b)) /\
    (forall m, (m < M)%nat ->
       vget (mlem_ratio st') m = vget (measurements st) m /. vget estimate m) /\
    (forall b, (b < B)%nat ->
       vget correction b
       = sigma M (fun m => mget response m b *. vget (mlem_ratio st') m)) /\
    (forall b, (b < B)%nat ->
       vget normalized_response b = sigma M (fun m => mget response m b)) /\
    (forall b, (b < B)%nat ->
       vget (spectrum st') b
       = vget (spectrum st) b *. vget correction b /. vget normalized_response b).
Proof.
  intros Hd M B response.
  pose proof Hd as [Hmeas [HR [Hrows Hs]]].
  set (estimate := estimate_of M B response (spectrum st)).
  set (ratio := ratio_of M (measurements st) estimate).
  exists estimate, (transpose_of M B response),
    (correction_of M B response ratio), (normalization_of M B response),
    (step_of M B st).
  split; [apply apply_response_ok; assumption|].
  split; [apply transpose_ok; assumption|].
  split; [apply compute_ratio_ok; [assumption | apply length_estimate_of]|].
  split; [apply compute_correction_ok; apply length_ratio_of|].
  split; [apply compute_normalization_ok|].
  split.
  { apply update_spectrum_ok;
      [assumption | apply length_correction_of | apply length_normalization_of]. }
  split; [apply mlem_iteration_ok; exact Hd|].
  split.
  { intros m Hm. unfold estimate, estimate_of.
    apply (vget_map_seq
             (fun m => sigma B
                         (fun b => mget response m b *. vget (spectrum st) b))).
    exact Hm. }
  split.
  { intros m Hm. simpl. unfold ratio_of.
    apply (vget_map_seq
             (fun m => vget (measurements st) m /. vget estimate m)).
    exact Hm. }
  split.
  { intros b Hb. unfold correction_of. simpl.
    apply (vget_map_seq
             (fun b => sigma M (fun m => mget response m b *. vget ratio m))).
    exact Hb. }
  split.
  { intros b Hb. unfold normalization_of.
    apply (vget_map_seq (fun b => sigma M (fun m => mget response m b))).
    exact Hb. }
  intros b Hb. simpl. unfold updated_of.
  apply (vget_map_seq
           (fun b => vget (spectrum st) b
                     *. vget (correction_of M B response ratio) b
                     /. vget (normalization_of M B response) b)).
  exact Hb.
Qed.

(** C3, as the code has it.  With a cap above 1, [runMLEM] returns before
    its counter reaches the cap exactly when no ratio of the last iteration
    satisfies [ratio >= 1 + error] or [ratio <= 1 - error]; the iteration it
    stops at is the first one with that property, so one ratio failing the
    test keeps the loop going.  The bounds themselves fail the test: the
    interval is open.  A NaN ratio satisfies neither comparison and passes
    the test ([within_tolerance_binary64] below: the ratios that pass are
    the NaNs and those strictly between the bounds). *)
Theorem early_stop_iff_all_ratios_pass (cutoff : Z) (error : T)
  (num_measurements num_bins : Z) (st : Refs T) (idx : Z) (st' : Refs T) :
  1 < cutoff ->
  runMLEM cutoff error num_measurements num_bins st = Ok (idx, st') ->
  (idx < cutoff <-> within_tolerance error (mlem_ratio st') = true) /\
  exists k : nat,
    (1 <= k)%nat /\
    iterate num_measurements num_bins k st = Ok st' /\
    forall j st_j, (1 <= j < k)%nat ->
                   iterate num_measurements num_bins j st = Ok st_j ->
                   within_tolerance error (mlem_ratio st_j) = false.
Proof.
  intros Hc E. apply runMLEM_inv in E.
  destruct E as [k [Hk [Eit [Hmid Hend]]]].
  destruct Hend as [[Hk1 [Hidx Hw]] | [Hkn [Hidx Hw]]].
  - split.
    + split; [intros _; exact Hw | intros _; lia].
    + exists k. split; [exact Hk1|]. split; [exact Eit | exact Hmid].
  - split.
    + specialize (Hw Hc). split; [lia | congruence].
    + exists k. split; [lia|]. split; [exact Eit | exact Hmid].
Qed.


(** C7. A run of a iterations that the tolerance test does not cut short
    (its counter reaches the cap a + 1), resumed from the state it leaves for
    b more iterations (again up to the cap b + 1), ends in the state of a
    single run of a + b iterations from the initial state: same spectrum,
    same ratios. *)
Theorem resumed_run_equals_single_run (a b : nat) (error : T)
  (num_measurements num_bins : Z) (st st1 st2 : Refs T) :
  runMLEM (Z.of_nat a + 1) error num_measurements num_bins st
  = Ok (Z.of_nat a + 1, st1) ->
  runMLEM (Z.of_nat b + 1) error num_measurements num_bins st1
  = Ok (Z.of_nat b + 1, st2) ->
  runMLEM (Z.of_nat (a + b) + 1) error num_measurements num_bins st
  = Ok (Z.of_nat (a + b) + 1, st2).
Proof.
  unfold runMLEM. intros E1 E2.
  replace (Z.to_nat (Z.of_nat a + 1 - 1)) with a in E1 by lia.
  replace (Z.to_nat (Z.of_nat b + 1 - 1)) with b in E2 by lia.
  replace (Z.to_nat (Z.of_nat (a + b) + 1 - 1)) with (a + b)%nat by lia.
  rewrite (mlem_loop_app error num_measurements num_bins a b 1
             (Z.of_nat a + 1) st st1) by (lia || exact E1).
  apply (mlem_loop_shift error num_measurements num_bins b (Z.of_nat a))
    in E2.
  replace (1 + Z.of_nat a) with (Z.of_nat a + 1) in E2 by lia.
  replace (Z.of_nat b + 1 + Z.of_nat a) with (Z.of_nat (a + b) + 1) in E2
    by lia.
  exact E2.
Qed.

(** C10. A call of [runMLEM] leaves [measurements] and [nns_response] as
    they were: of the four reference parameters only [spectrum] and
    [mlem_ratio] can differ afterwards. *)
Theorem runMLEM_frame (cutoff : Z) (error : T) (num_measurements num_bins : Z)
  (st : Refs T) (idx : Z) (st' : Refs T) :
  runMLEM cutoff error num_measurements num_bins st = Ok (idx, st') ->
  measurements st' = measurements st /\ nns_response st' = nns_response st.
Proof.
  intros E. apply runMLEM_inv in E. destruct E as [k [_ [Eit _]]].
  apply iterate_frame in Eit. exact Eit.
Qed.

Lemma iter_step_frame (M B : nat) (j : nat) (st : Refs T) :
  measurements (Nat.iter j (step_of M B) st) = measurements st /\
  nns_response (Nat.iter j (step_of M B) st) = nns_response st.
Proof.
  induction j as [|j [IHm IHr]]; [split; reflexivity|].
  cbn [Nat.iter nat_rect]. unfold step_of at 1 3.
  cbn [measurements nns_response]. split; assumption.
Qed.

(** C6, as the code has it.  [runMLEM] has no check on the estimates and no
    error path.  On inputs of matching dimensions every iteration is the
    closed-form step, in which ratio[m] is the quotient
    measurements[m] / estimate[m] as the division of the arithmetic gives
    it, for a zero estimate as for any other; the call returns, and what it
    returns is fixed by the tolerance test and the cap alone: the state
    after k steps and the counter, where k is the first iteration whose
    ratios pass the test (the counter is then k) or, if none does below
    the cap, cutoff - 1 (the counter is then the cutoff).  No other value
    reaches the caller. *)
Theorem runMLEM_never_fails (cutoff : Z) (error : T)
  (num_measurements num_bins : Z) (st : Refs T) :
  well_dimensioned num_measurements num_bins st ->
  let M := Z.to_nat num_measurements in
  let B := Z.to_nat num_bins in
  let state (j : nat) := Nat.iter j (step_of M B) st in
  (forall j m, (m < M)%nat ->
     vget (mlem_ratio (state (S j))) m
     = vget (measurements st) m
       /. vget (estimate_of M B (nns_response st) (spectrum (state j))) m) /\
  exists k : nat,
    Z.of_nat k <= Z.max 0 (cutoff - 1) /\
    (forall j, (1 <= j < k)%nat ->
               within_tolerance error (mlem_ratio (state j)) = false) /\
    ((1 <= k)%nat /\
     within_tolerance error (mlem_ratio (state k)) = true /\
     runMLEM cutoff error num_measurements num_bins st
     = Ok (Z.of_nat k, state k)
     \/
     (k = 0%nat \/ within_tolerance error (mlem_ratio (state k)) = false) /\
     Z.of_nat k = Z.max 0 (cutoff - 1) /\
     runMLEM cutoff error num_measurements num_bins st
     = Ok (Z.max 1 cutoff, state k)).
Proof.
  intros Hd M B state. split.
  - intros j m Hm. unfold state. cbn [Nat.iter nat_rect].
    fold (Nat.iter j (step_of M B) st).
    destruct (iter_step_frame M B j st) as [Em Er].
    unfold step_of at 1. cbn [mlem_ratio]. rewrite Em, Er. unfold ratio_of.
    apply (vget_map_seq
             (fun m => vget (measurements st) m /. vget (estimate_of _ _ _ _) m)).
    exact Hm.
  - destruct (mlem_loop_returns error num_measurements num_bins
                (Z.to_nat (cutoff - 1)) 1 st Hd) as [idx [st' [E _]]].
    fold (runMLEM cutoff error num_measurements num_bins st) in E.
    pose proof (runMLEM_inv _ _ _ _ _ _ _ E) as [k [Hk [Eit [Hmid Hend]]]].
    rewrite iterate_closed_form in Eit by exact Hd.
    injection Eit as Est. fold M B in Est. fold (state k) in Est.
    exists k. split; [lia|]. split.
    + intros j Hj. apply (Hmid j); [exact Hj|].
      apply iterate_closed_form. exact Hd.
    + rewrite E, Est.
      destruct Hend as [[Hk1 [Hidx Hw]] | [Hkn [Hidx Hw]]].
      * left. split; [exact Hk1|]. split; [exact Hw|]. rewrite Hidx.
        reflexivity.
      * right. split.
        -- destruct (Z.ltb_spec 1 cutoff) as [Hc | Hc];
             [right; apply Hw; exact Hc | left; lia].
        -- split; [lia|]. rewrite Hidx. reflexivity.
Qed.

End Properties.

(** In exact arithmetic the ratios that pass the test are those strictly
    between the bounds. *)
Lemma within_tolerance_open_interval (error : Q) (ratio : list Q) :
  within_tolerance error ratio = true <->
  forall r, In r ratio -> (1 - error < r /\ r < 1 + error)%Q.
Proof.
  rewrite within_tolerance_iff. simpl.
  split; intros Hall r Hr; specialize (Hall r Hr); destruct Hall as [Hhi Hlo].
  - split; apply Qnot_le_lt; intros Hle; apply Qle_bool_iff in Hle; congruence.
  - split.
    + destruct (Qle_bool (1 + error) r) eqn:E; [|reflexivity].
      apply Qle_bool_iff in E. exfalso. exact (Qlt_not_le _ _ Hlo E).
    + destruct (Qle_bool r (1 - error)) eqn:E; [|reflexivity].
      apply Qle_bool_iff in E. exfalso. exact (Qlt_not_le _ _ Hhi E).
Qed.

(** ** The signs of binary64 sums, products and quotients

    Read off the IEEE specification of the operations: rounding keeps the
    sign, and a sum that starts at +0 and adds values that are [>= 0] or NaN
    is never the negative zero. *)

Lemma Prim2SF_zero : Prim2SF 0%float = S754_zero false.
Proof. vm_compute. reflexivity. Qed.

Lemma Prim2SF_one :
  Prim2SF 1%float = S754_finite false 4503599627370496 (-52).
Proof. vm_compute. reflexivity. Qed.

Lemma binary_round_aux_sign (s : bool) (m e : Z) (l : location) :
  sign_is s (binary_round_aux prec emax s m e l).
Proof.
  unfold binary_round_aux.
  destruct (shr_fexp prec emax m e l) as [mrs' e'].
  destruct (shr_fexp prec emax _ e' loc_Exact) as [mrs'' e''].
  destruct (shr_m mrs''); cbn; try reflexivity; try exact I.
  destruct (_ <=? _); reflexivity.
Qed.

Lemma binary_round_sign (s : bool) (m : BinNums.positive) (e : Z) :
  sign_is s (binary_round prec emax s m e).
Proof.
  unfold binary_round. destruct (shl_align _ _ _) as [mz ez].
  apply binary_round_aux_sign.
Qed.

Lemma sign_is_not_negative (x : spec_float) :
  sign_is false x -> not_negative x.
Proof. destruct x as [s|s| |s m e]; simpl; intros Hs; subst; exact I. Qed.

Lemma SFadd_sign (a b : spec_float) :
  sign_is false a -> not_negative b -> sign_is false (SF64add a b).
Proof.
  destruct a as [sa|sa| |sa ma ea]; destruct b as [sb|sb| |sb mb eb];
    simpl; intros Ha Hb; subst; try destruct sb; try contradiction;
    try reflexivity; try exact I.
  apply (binary_round_sign false).
Qed.

Lemma SFmul_not_negative (a b : spec_float) :
  not_negative a -> not_negative b -> not_negative (SF64mul a b).
Proof.
  destruct a as [sa|sa| |sa ma ea]; destruct b as [sb|sb| |sb mb eb];
    try destruct sa; try destruct sb;
    simpl; intros Ha Hb; try contradiction; try exact I.
  apply sign_is_not_negative. apply binary_round_aux_sign.
Qed.

Lemma SFmul_sign (a b : spec_float) :
  sign_is false a -> sign_is false b -> sign_is false (SF64mul a b).
Proof.
  destruct a as [sa|sa| |sa ma ea]; destruct b as [sb|sb| |sb mb eb];
    simpl; intros Ha Hb; subst; try reflexivity; try exact I.
  apply (binary_round_aux_sign false).
Qed.

Lemma SFdiv_not_negative (a b : spec_float) :
  not_negative a -> sign_is false b -> not_negative (SF64div a b).
Proof.
  destruct a as [sa|sa| |sa ma ea]; destruct b as [sb|sb| |sb mb eb];
    try destruct sa;
    simpl; intros Ha Hb; subst; try contradiction; try exact I.
  unfold SF64div, SFdiv.
  destruct (SFdiv_core_binary _ _ _ _ _ _) as [[mz ez] lz].
  apply sign_is_not_negative. apply (binary_round_aux_sign false).
Qed.

Lemma SFdiv_sign (a b : spec_float) :
  sign_is false a -> sign_is false b -> sign_is false (SF64div a b).
Proof.
  destruct a as [sa|sa| |sa ma ea]; destruct b as [sb|sb| |sb mb eb];
    simpl; intros Ha Hb; subst; try reflexivity; try exact I.
  unfold SF64div, SFdiv.
  destruct (SFdiv_core_binary _ _ _ _ _ _) as [[mz ez] lz].
  apply (binary_round_aux_sign false).
Qed.

Lemma SFadd_zero_l (x : spec_float) :
  sign_is false x -> SF64add (S754_zero false) x = x.
Proof.
  destruct x as [s|s| |s m e]; simpl; intros Hs; subst; reflexivity.
Qed.

(** Multiplying by 1 is exact: the 52 low zeros of the product's mantissa
    are shifted out again. *)
Lemma SFmul_one_r (x : spec_float) :
  valid_binary x = true ->
  SF64mul x (S754_finite false 4503599627370496 (-52)) = x.
Proof.
  destruct x as [s|s| |s m e]; intros Hv.
  - simpl. rewrite xorb_false_r. reflexivity.
  - simpl. rewrite xorb_false_r. reflexivity.
  - reflexivity.
  - unfold SF64mul, SFmul. rewrite xorb_false_r.
    simpl in Hv. unfold bounded in Hv. apply andb_true_iff in Hv.
    destruct Hv as [Hc Hb]. unfold canonical_mantissa in Hc.
    apply Z.eqb_eq in Hc.
    rewrite Pos.mul_comm. cbn [Pos.mul].
    unfold binary_round_aux. unfold shr_fexp at 1.
    match goal with
    | |- context [Zdigits2 ?z + (e + -52)] =>
        assert (Hd : Zdigits2 z + (e + -52) = Z.pos (digits2_pos m) + e)
          by (cbn [Zdigits2 digits2_pos]; rewrite !Pos2Z.inj_succ; lia);
        rewrite Hd, Hc
    end.
    replace (e - (e + -52)) with 52 by lia.
    cbn [shr shr_record_of_loc iter_pos shr_1 orb].
    cbn [shr_m loc_of_shr_record round_nearest_even].
    replace (e + -52 + 52) with e by lia.
    unfold shr_fexp. cbn [Zdigits2]. rewrite Hc, Z.sub_diag.
    cbn [shr shr_record_of_loc shr_m]. rewrite Hb. reflexivity.
Qed.

Lemma SFleb_refl (x : spec_float) :
  SFleb x x = match x with S754_nan => false | _ => true end.
Proof.
  destruct x as [s|s| |s m e]; try destruct s; try reflexivity;
    unfold SFleb, SFcompare;
    rewrite Z.compare_refl, Pos.compare_cont_refl; reflexivity.
Qed.

Lemma SFcompare_antisym (x y : spec_float) :
  SFcompare y x = option_map CompOpp (SFcompare x y).
Proof.
  destruct x as [sx|sx| |sx mx ex]; destruct y as [sy|sy| |sy my ey];
    try destruct sx; try destruct sy; try reflexivity;
    cbn [SFcompare option_map]; apply f_equal;
    rewrite (Z.compare_antisym ex ey);
    destruct (ex ?= ey); cbn [CompOpp]; try reflexivity;
    rewrite (Pos.compare_cont_antisym mx my Eq); reflexivity.
Qed.

(** [not (y <= x)] is [x < y] unless one of the two is a NaN. *)
Lemma SF_not_leb (x y : spec_float) :
  negb (SFleb y x)
  = SFltb x y || negb (SFleb x x) || negb (SFleb y y).
Proof.
  rewrite !SFleb_refl. unfold SFleb, SFltb.
  rewrite (SFcompare_antisym x y).
  destruct x as [sx|sx| |sx mx ex]; destruct y as [sy|sy| |sy my ey];
    try reflexivity;
    destruct (SFcompare _ _) as [[]|] eqn:E; try reflexivity;
    try destruct sx; try destruct sy; discriminate E.
Qed.

Section Binary64.

Implicit Types x y a b : float.

Lemma not_a_number_spec x :
  not_a_number x = true <-> Prim2SF x = S754_nan.
Proof.
  unfold not_a_number. cbn [leb float_Scalar].
  rewrite leb_spec, SFleb_refl.
  destruct (Prim2SF x); simpl; split; congruence.
Qed.

Lemma nonneg_or_nan_spec x :
  nonneg_or_nan x = true <-> not_negative (Prim2SF x).
Proof.
  unfold nonneg_or_nan, nonneg, not_a_number. cbn [leb zero float_Scalar].
  rewrite !leb_spec, SFleb_refl, Prim2SF_zero.
  destruct (Prim2SF x) as [s|s| |s m e]; try destruct s; simpl;
    split; intros Hx; try discriminate Hx; try contradiction;
    try reflexivity; try exact I.
Qed.

Lemma sign_bit_clear_spec x :
  sign_bit_clear x = true <-> sign_is false (Prim2SF x).
Proof.
  unfold sign_bit_clear. rewrite classify_spec.
  unfold SF64classify, SFclassify.
  destruct (Prim2SF x) as [s|s| |s m e]; try destruct s; cbn [sign_is];
    try destruct (Z.eqb _ _); split; intros Hx;
    try discriminate Hx; try reflexivity; try exact I.
Qed.

Lemma sign_bit_clear_nonneg_or_nan x :
  sign_bit_clear x = true -> nonneg_or_nan x = true.
Proof.
  rewrite sign_bit_clear_spec, nonneg_or_nan_spec. apply sign_is_not_negative.
Qed.

Lemma nonneg_nonneg_or_nan x : nonneg x = true -> nonneg_or_nan x = true.
Proof. intros Hx. unfold nonneg_or_nan. rewrite Hx. reflexivity. Qed.

Lemma sign_bit_clear_add a b :
  sign_bit_clear a = true -> nonneg_or_nan b = true ->
  sign_bit_clear (a +. b) = true.
Proof.
  rewrite !sign_bit_clear_spec, nonneg_or_nan_spec. cbn [add float_Scalar].
  rewrite add_spec. apply SFadd_sign.
Qed.

Lemma nonneg_or_nan_mul a b :
  nonneg_or_nan a = true -> nonneg_or_nan b = true ->
  nonneg_or_nan (a *. b) = true.
Proof.
  rewrite !nonneg_or_nan_spec. cbn [mul float_Scalar].
  rewrite mul_spec. apply SFmul_not_negative.
Qed.

Lemma nonneg_or_nan_div a b :
  nonneg_or_nan a = true -> sign_bit_clear b = true ->
  nonneg_or_nan (a /. b) = true.
Proof.
  rewrite !nonneg_or_nan_spec, sign_bit_clear_spec. cbn [div float_Scalar].
  rewrite div_spec. apply SFdiv_not_negative.
Qed.

Lemma sign_bit_clear_mul a b :
  sign_bit_clear a = true -> sign_bit_clear b = true ->
  sign_bit_clear (a *. b) = true.
Proof.
  rewrite !sign_bit_clear_spec. cbn [mul float_Scalar].
  rewrite mul_spec. apply SFmul_sign.
Qed.

Lemma sign_bit_clear_div a b :
  sign_bit_clear a = true -> sign_bit_clear b = true ->
  sign_bit_clear (a /. b) = true.
Proof.
  rewrite !sign_bit_clear_spec. cbn [div float_Scalar].
  rewrite div_spec. apply SFdiv_sign.
Qed.

(** Adding to 0 changes nothing but the sign of the negative zero. *)
Lemma binary64_add_zero_l x : sign_bit_clear x = true -> zero +. x = x.
Proof.
  rewrite sign_bit_clear_spec. intros Hx. cbn [add zero float_Scalar].
  apply Prim2SF_inj. rewrite add_spec, Prim2SF_zero.
  apply SFadd_zero_l. exact Hx.
Qed.

(** Multiplying by 1 changes nothing. *)
Lemma binary64_mul_one_r x : x *. one = x.
Proof.
  cbn [mul one float_Scalar].
  apply Prim2SF_inj. rewrite mul_spec, Prim2SF_one.
  apply SFmul_one_r. apply Prim2SF_valid.
Qed.

(** The two tests of the tolerance on one ratio. *)
Lemma binary64_not_leb x y :
  negb (y <=. x) = (x <. y) || not_a_number x || not_a_number y.
Proof.
  unfold not_a_number. cbn [leb ltb float_Scalar].
  rewrite !leb_spec, ltb_spec. apply SF_not_leb.
Qed.

End Binary64.

Lemma forallb_map_seq {A : Type} (p : A -> bool) (f : nat -> A) (n : nat) :
  (forall i, (i < n)%nat -> p (f i) = true) ->
  forallb p (map f (seq 0 n)) = true.
Proof.
  intros Hf. apply forallb_forall. intros x Hx.
  apply in_map_iff in Hx. destruct Hx as [i [<- Hi]].
  apply in_seq in Hi. apply Hf. lia.
Qed.

(** In binary64 the ratios that pass the test are the NaNs and those
    strictly between the bounds, when the bounds are numbers. *)
Lemma within_tolerance_binary64 (error : float) (ratio : list float) :
  not_a_number (one +. error) = false ->
  not_a_number (one -. error) = false ->
  within_tolerance error ratio
  = forallb (fun r => not_a_number r || in_open_interval error r) ratio.
Proof.
  intros Hhi Hlo. unfold within_tolerance, outside_tolerance, in_open_interval.
  induction ratio as [|r ratio IH]; [reflexivity|].
  cbn [forallb]. rewrite IH. apply (f_equal (fun b => b && _)).
  rewrite negb_orb, (binary64_not_leb r (one +. error)),
    (binary64_not_leb (one -. error) r), Hhi, Hlo.
  destruct (not_a_number r), (r <. one +. error), (one -. error <. r);
    reflexivity.
Qed.

(** ** The spectrum never becomes negative *)

Section Positivity.

Lemma fold_left_sign_bit_clear (f : nat -> float) (l : list nat) :
  (forall i, In i l -> nonneg_or_nan (f i) = true) ->
  forall acc, sign_bit_clear acc = true ->
              sign_bit_clear (fold_left (fun acc i => acc +. f i) l acc)
              = true.
Proof.
  induction l as [|i l IH]; intros Hf acc Hacc; simpl.
  - exact Hacc.
  - apply IH.
    + intros j Hj. apply Hf. right. exact Hj.
    + apply sign_bit_clear_add; [exact Hacc | apply Hf; left; reflexivity].
Qed.

Lemma sigma_sign_bit_clear (n : nat) (f : nat -> float) :
  (forall i, (i < n)%nat -> nonneg_or_nan (f i) = true) ->
  sign_bit_clear (sigma n f) = true.
Proof.
  intros Hf. unfold sigma. apply fold_left_sign_bit_clear.
  - intros i Hi. apply in_seq in Hi. apply Hf. lia.
  - reflexivity.
Qed.

Lemma vget_forallb (p : float -> bool) (v : list float) (i : nat) :
  p zero = true -> forallb p v = true -> p (vget v i) = true.
Proof.
  intros H0 Hv. unfold vget.
  destruct (Nat.lt_ge_cases i (length v)) as [Hi | Hi].
  - rewrite forallb_forall in Hv. apply Hv. apply nth_In. exact Hi.
  - rewrite nth_overflow by exact Hi. exact H0.
Qed.

Lemma mget_forallb (p : float -> bool) (R : list (list float)) (m b : nat) :
  p zero = true -> forallb (forallb p) R = true -> p (mget R m b) = true.
Proof.
  intros H0 HR. unfold mget. apply vget_forallb; [exact H0|].
  destruct (Nat.lt_ge_cases m (length R)) as [Hm | Hm].
  - rewrite forallb_forall in HR. apply HR. apply nth_In. exact Hm.
  - rewrite nth_overflow by exact Hm. reflexivity.
Qed.

(** One iteration: from a spectrum whose entries are [>= 0] or NaN to
    another. *)
Lemma step_nonneg_or_nan (M B : nat) (st : Refs float) :
  response_nonneg st = true ->
  forallb nonneg (measurements st) = true ->
  forallb nonneg_or_nan (spectrum st) = true ->
  forallb nonneg_or_nan (spectrum (step_of M B st)) = true.
Proof.
  intros HR Hmeas Hs. unfold step_of. cbn [spectrum]. unfold updated_of.
  apply forallb_map_seq. intros b Hb.
  apply nonneg_or_nan_div.
  - apply nonneg_or_nan_mul.
    + apply vget_forallb; [reflexivity | exact Hs].
    + apply sign_bit_clear_nonneg_or_nan. unfold correction_of.
      rewrite (vget_map_seq
                 (fun b => sigma M (fun m => mget (nns_response st) m b *. _)))
        by exact Hb.
      apply sigma_sign_bit_clear. intros m Hm.
      apply nonneg_or_nan_mul.
      * apply nonneg_nonneg_or_nan.
        apply (mget_forallb nonneg); [reflexivity | exact HR].
      * unfold ratio_of.
        rewrite (vget_map_seq (fun m => vget (measurements st) m /. _))
          by exact Hm.
        apply nonneg_or_nan_div.
        -- apply nonneg_nonneg_or_nan.
           apply (vget_forallb nonneg); [reflexivity | exact Hmeas].
        -- unfold estimate_of.
           rewrite (vget_map_seq
                      (fun m => sigma B (fun b => mget (nns_response st) m b
                                                  *. _)))
             by exact Hm.
           apply sigma_sign_bit_clear. intros b' Hb'.
           apply nonneg_or_nan_mul.
           ++ apply nonneg_nonneg_or_nan.
              apply (mget_forallb nonneg); [reflexivity | exact HR].
           ++ apply vget_forallb; [reflexivity | exact Hs].
  - unfold normalization_of.
    rewrite (vget_map_seq (fun b => sigma M (fun m => mget _ m b)))
      by exact Hb.
    apply sigma_sign_bit_clear. intros m Hm.
    apply nonneg_nonneg_or_nan.
    apply (mget_forallb nonneg); [reflexivity | exact HR].
Qed.

Lemma iter_step_nonneg_or_nan (M B : nat) (st : Refs float) (k : nat) :
  response_nonneg st = true ->
  forallb nonneg (measurements st) = true ->
  forallb nonneg_or_nan (spectrum st) = true ->
  forallb nonneg_or_nan (spectrum (Nat.iter k (step_of M B) st)) = true.
Proof.
  intros HR Hmeas Hs. induction k as [|k IH]; [exact Hs|].
  cbn [Nat.iter nat_rect]. fold (Nat.iter k (step_of M B) st).
  destruct (iter_step_frame M B k st) as [Em Er].
  apply step_nonneg_or_nan.
  - unfold response_nonneg. rewrite Er. exact HR.
  - rewrite Em. exact Hmeas.
  - exact IH.
Qed.

(** C2, as the code has it.  In binary64, for a response matrix with
    non-negative entries, non-negative measurements and a non-negative
    initial spectrum of matching dimensions, every entry of the spectrum is
    [>= 0] or a NaN when [runMLEM] returns and after any number of its
    iterations: no entry ever becomes negative.  Whether the column sums are
    positive does not matter. *)
Theorem spectrum_stays_nonneg_or_nan (cutoff : Z) (error : float)
  (num_measurements num_bins : Z) (st : Refs float) (idx : Z)
  (st' : Refs float) :
  well_dimensioned num_measurements num_bins st ->
  response_nonneg st = true ->
  forallb nonneg (measurements st) = true ->
  forallb nonneg (spectrum st) = true ->
  runMLEM cutoff error num_measurements num_bins st = Ok (idx, st') ->
  forallb nonneg_or_nan (spectrum st') = true /\
  forall k st_k, iterate num_measurements num_bins k st = Ok st_k ->
                 forallb nonneg_or_nan (spectrum st_k) = true.
Proof.
  intros Hd HR Hmeas Hs E.
  assert (Hs' : forallb nonneg_or_nan (spectrum st) = true).
  { apply forallb_forall. intros x Hx. apply nonneg_nonneg_or_nan.
    rewrite forallb_forall in Hs. apply Hs. exact Hx. }
  assert (Hall : forall k st_k,
             iterate num_measurements num_bins k st = Ok st_k ->
             forallb nonneg_or_nan (spectrum st_k) = true).
  { intros k st_k Eit. rewrite iterate_closed_form in Eit by exact Hd.
    injection Eit as <-. apply iter_step_nonneg_or_nan; assumption. }
  split; [|exact Hall].
  apply runMLEM_inv in E. destruct E as [k [_ [Eit _]]].
  exact (Hall k st' Eit).
Qed.

End Positivity.

(** ** The RMS difference in closed form *)

Section RMSFormula.

Context {T : Type} `{Scalar T} `{Sqrt T}.

Variable num_poisson_samples : Z.
Variable poissmat : list (list T).
Variable spectrum : list T.

Let N := Z.to_nat num_poisson_samples.

(** The squared difference of sample [k] from the spectrum, in bin [i]. *)
Let sqdiff (i k : nat) : T :=
  (mget poissmat i k -. vget spectrum i) *. (mget poissmat i k -. vget spectrum i).

Hypothesis poissmat_rows : length poissmat = 52%nat.
Hypothesis poissmat_cols : Forall (fun row => length row = N) poissmat.
Hypothesis spectrum_bins : length spectrum = 52%nat.

Lemma sample_body_ok (i k : nat) (sq : list T) :
  (i < 52)%nat -> (k < N)%nat -> (i < length sq)%nat ->
  (row <- poissmat.[i] ;;
   p <- row.[k] ;;
   s <- spectrum.[i] ;;
   q <- sq.[i] ;;
   assign sq i (q +. (p -. s) *. (p -. s)))
  = Ok (set_nth sq i (vget sq i +. sqdiff i k)).
Proof.
  intros Hi Hk Hsq.
  rewrite (mget_at poissmat 52 N) by assumption.
  rewrite !vget_at by lia. simpl.
  apply assign_ok. exact Hsq.
Qed.

Lemma sum_over_samples_ok (i : nat) (ks : list nat) :
  (i < 52)%nat -> (forall k, In k ks -> (k < N)%nat) ->
  forall sq : list T,
    (i < length sq)%nat ->
    for_each ks (fun k sq =>
        row <- poissmat.[i] ;;
        p <- row.[k] ;;
        s <- spectrum.[i] ;;
        q <- sq.[i] ;;
        assign sq i (q +. (p -. s) *. (p -. s))) sq
    = Ok (set_nth sq i
            (fold_left (fun acc k => acc +. sqdiff i k) ks (vget sq i))).
Proof.
  intros Hi. induction ks as [|k ks IH]; intros Hks sq Hsq; simpl.
  - unfold vget. rewrite set_nth_same. reflexivity.
  - rewrite sample_body_ok
      by (assumption || apply Hks; left; reflexivity).
    simpl. rewrite IH.
    + rewrite set_nth_set_nth. f_equal. f_equal. f_equal.
      unfold vget at 1. rewrite nth_set_nth by exact Hsq.
      rewrite Nat.eqb_refl. reflexivity.
    + intros k' Hk'. apply Hks. right. exact Hk'.
    + rewrite length_set_nth. exact Hsq.
Qed.

(** What the three loops compute from the content [sq_uninit] that [sq]
    happens to start with: the square root of (sq_uninit[i] plus the sum of
    the squared differences), divided by the number of samples. *)
Lemma uncertainty_formula (sq_uninit : list T) :
  length sq_uninit = 52%nat ->
  uncertainty num_poisson_samples poissmat spectrum sq_uninit
  = Ok (map (fun i =>
               sqrt (fold_left (fun acc k => acc +. sqdiff i k) (seq 0 N)
                       (vget sq_uninit i)
                     /. of_int num_poisson_samples))
          (seq 0 52)).
Proof.
  intros Hsq. unfold uncertainty, sum_squared_difference.
  change (range 52) with (seq 0 52). rewrite <- Hsq at 1.
  rewrite (for_each_in_place_all _
             (fun i x => fold_left (fun acc k => acc +. sqdiff i k) (seq 0 N) x)).
  - rewrite Hsq, bind_of_Ok.
    unfold average_squared_difference. change (range 52) with (seq 0 52).
    rewrite (for_each_push _ _
               (fun i => fold_left (fun acc k => acc +. sqdiff i k) (seq 0 N)
                           (vget sq_uninit i)
                         /. of_int num_poisson_samples) []).
    + rewrite app_nil_l, bind_of_Ok. unfold rms_difference.
      change (range 52) with (seq 0 52).
      apply (for_each_push _ _ _ []).
      intros i v Hi. apply in_seq in Hi.
      rewrite vget_at by (rewrite length_map, length_seq; lia).
      rewrite vget_map_seq by lia. reflexivity.
    + intros i v Hi. apply in_seq in Hi.
      rewrite vget_at by (rewrite length_map, length_seq; lia).
      rewrite vget_map_seq by lia. reflexivity.
  - intros i v Hi Hv. apply sum_over_samples_ok.
    + lia.
    + intros k Hk. apply in_range in Hk. exact Hk.
    + lia.
Qed.

(** Had [sq] started at 0, the value reported would be the root of the mean
    squared difference from the reference spectrum. *)
Lemma uncertainty_formula_zeroed :
  uncertainty num_poisson_samples poissmat spectrum (repeat zero 52)
  = Ok (map (fun i => sqrt (sigma N (sqdiff i) /. of_int num_poisson_samples))
          (seq 0 52)).
Proof.
  rewrite uncertainty_formula by apply repeat_length.
  apply f_equal. apply map_ext. intros i.
  unfold vget. rewrite nth_repeat. reflexivity.
Qed.

End RMSFormula.

(** ** The properties on concrete inputs *)

(** C5. On response [[1,0],[0,1]], measurements (2, 3), initial spectrum
    (1, 1), error 0.01 and cutoff 100: the first estimate is (1, 1), the
    first ratio (2, 3), the spectrum becomes (2, 3); the second ratio is
    (1, 1), within the tolerance, and [runMLEM] returns 2 with the spectrum
    (2, 3). *)
Theorem scenario_stops_at_iteration_two :
  let after_one := mkRefs [2; 3]%float [2; 3]%float identity_response [2; 3]%float in
  let after_two := mkRefs [2; 3]%float [2; 3]%float identity_response [1; 1]%float in
  apply_response 2 2 identity_response (spectrum scenario) = Ok [1; 1]%float /\
  mlem_iteration 2 2 scenario = Ok after_one /\
  within_tolerance 0.01%float (mlem_ratio after_one) = false /\
  mlem_iteration 2 2 after_one = Ok after_two /\
  within_tolerance 0.01%float (mlem_ratio after_two) = true /\
  runMLEM 100 0.01%float 2 2 scenario = Ok (2, after_two).
Proof.
  repeat split; vm_compute; reflexivity.
Qed.

(** The same scenario in exact arithmetic. *)
Example scenario_Q_stops_at_iteration_two :
  exists st',
    runMLEM 100 (1 # 100)%Q 2 2 scenario_Q = Ok (2, st') /\
    map Qred (spectrum st') = [2; 3]%Q /\
    map Qred (mlem_ratio st') = [1; 1]%Q.
Proof.
  eexists. split; [vm_compute; reflexivity|].
  split; vm_compute; reflexivity.
Qed.

(** C2 fails as stated.  The input satisfies every condition of the claim,
    with a positive initial spectrum; channel 0 measured 0.  The first
    iteration empties bin 0, the second estimate of channel 0 is 0, the
    ratio 0/0 is a NaN, and so is the spectrum returned: no comparison with
    a NaN holds. *)
Lemma nonneg_spectrum_lost_on_silent_channel :
  response_nonneg silent_channel = true /\
  column_sums_positive 2 2 silent_channel = true /\
  forallb nonneg (measurements silent_channel) = true /\
  forallb positive (spectrum silent_channel) = true /\
  forallb nonneg (spectrum silent_channel) = true /\
  iterate 2 2 1 silent_channel
  = Ok (mkRefs [0; 3]%float [0; 3]%float identity_response [0; 3]%float) /\
  apply_response 2 2 identity_response [0; 3]%float = Ok [0; 3]%float /\
  exists st',
    runMLEM 100 0.01%float 2 2 silent_channel = Ok (2, st') /\
    spectrum st' = [nan; nan]%float /\
    forallb nonneg (spectrum st') = false.
Proof.
  repeat (split; [vm_compute; reflexivity|]).
  eexists. repeat split; vm_compute; reflexivity.
Qed.

(** C3 fails as stated.  With error 0.5 the only ratio of the first
    iteration is 1.5 = 1 + error, inside the closed interval; the loop goes
    on: with cutoff 2 the counter reaches the cap, with cutoff 100 a second
    iteration is executed. *)
Lemma ratio_on_the_bound_does_not_stop :
  let after_one := mkRefs [1.5]%float [1.5]%float [[1]]%float [1.5]%float in
  let after_two := mkRefs [1.5]%float [1.5]%float [[1]]%float [1]%float in
  mlem_iteration 1 1 on_the_bound = Ok after_one /\
  in_closed_interval 0.5%float (mlem_ratio after_one) = true /\
  within_tolerance 0.5%float (mlem_ratio after_one) = false /\
  runMLEM 2 0.5%float 1 1 on_the_bound = Ok (2, after_one) /\
  runMLEM 100 0.5%float 1 1 on_the_bound = Ok (2, after_two).
Proof.
  repeat split; vm_compute; reflexivity.
Qed.


(** C6 fails as stated.  The estimate of channel 0 is zero in the first
    iteration; the run does not fail there: it executes a second iteration
    and returns the count 2, with a spectrum and ratios that are NaN. *)
Lemma zero_estimate_is_not_an_error :
  apply_response 2 2 identity_response (spectrum collapsed_bin)
  = Ok [0; 1]%float /\
  mlem_iteration 2 2 collapsed_bin
  = Ok (mkRefs [1; 1]%float [nan; nan]%float identity_response
          [infinity; 1]%float) /\
  runMLEM 100 0.01%float 2 2 collapsed_bin
  = Ok (2, mkRefs [1; 1]%float [nan; nan]%float identity_response
             [nan; nan]%float).
Proof.
  repeat split; vm_compute; reflexivity.
Qed.

(** C8, the code at a failing input.  One sample whose spectrum equals the
    reference spectrum: every squared difference is 0, and the value
    reported for each bin is the square root of what [sq] held before the
    loop, 1 where the stack held 1.  It is 0 only where the stack held 0. *)
Theorem uncertainty_reads_uninitialised_sq :
  uncertainty 1 one_equal_sample reference_spectrum stack_of_ones
  = Ok (repeat 1%float 52) /\
  uncertainty 1 one_equal_sample reference_spectrum stack_of_zeros
  = Ok (repeat 0%float 52).
Proof.
  split; vm_compute; reflexivity.
Qed.

(** ** The theorems at concrete inputs *)

(** The dimensions of the concrete inputs match. *)
Lemma scenario_well_dimensioned : well_dimensioned 2 2 scenario.
Proof. unfold well_dimensioned. simpl. repeat split; repeat constructor. Qed.

Lemma collapsed_bin_well_dimensioned : well_dimensioned 2 2 collapsed_bin.
Proof. unfold well_dimensioned. simpl. repeat split; repeat constructor. Qed.

Lemma scenario_Q_well_dimensioned : well_dimensioned 2 2 scenario_Q.
Proof. unfold well_dimensioned. simpl. repeat split; repeat constructor. Qed.

(** The formulas of one iteration on the scenario: the first estimate and
    the second bin of the updated spectrum. *)
Lemma mlem_iteration_formulas_scenario :
  well_dimensioned 2 2 scenario /\
  exists estimate correction normalized_response st',
    mlem_iteration 2 2 scenario = Ok st' /\
    vget estimate 0
    = sigma 2 (fun b => mget identity_response 0 b *. vget [1; 1]%float b) /\
    vget (spectrum st') 1
    = vget [1; 1]%float 1 *. vget correction 1 /. vget normalized_response 1.
Proof.
  split; [exact scenario_well_dimensioned|].
  destruct (mlem_iteration_formulas 2 2 scenario scenario_well_dimensioned)
    as (e & t & c & n & st' & _ & _ & _ & _ & _ & _ & Hi & He & _ & _ & _ & Hs).
  exists e, c, n, st'. split; [exact Hi|]. split.
  - apply (He 0%nat). simpl. lia.
  - apply (Hs 1%nat). simpl. lia.
Defined.

Lemma silent_channel_well_dimensioned : well_dimensioned 2 2 silent_channel.
Proof. unfold well_dimensioned. simpl. repeat split; repeat constructor. Qed.

(** The channel that measured nothing: the spectrum returned is (NaN, NaN),
    and after one iteration it is (0, 3). *)
Lemma spectrum_stays_nonneg_or_nan_silent_channel :
  forallb nonneg_or_nan [nan; nan]%float = true /\
  forall k st_k, iterate 2 2 k silent_channel = Ok st_k ->
                 forallb nonneg_or_nan (spectrum st_k) = true.
Proof.
  apply (spectrum_stays_nonneg_or_nan 100 0.01%float 2 2 silent_channel 2
           (mkRefs [0; 3]%float [nan; nan]%float identity_response
              [nan; 1]%float)).
  - exact silent_channel_well_dimensioned.
  - vm_compute. reflexivity.
  - vm_compute. reflexivity.
  - vm_compute. reflexivity.
  - vm_compute. reflexivity.
Defined.

(** The scenario stops at iteration 2 of 100 because the ratios (1, 1) pass
    the test. *)
Lemma early_stop_iff_all_ratios_pass_scenario :
  1 < 100 /\
  (2 < 100 <-> within_tolerance 0.01%float [1; 1]%float = true).
Proof.
  split; [lia|].
  apply (early_stop_iff_all_ratios_pass 100 0.01%float 2 2 scenario 2
           (mkRefs [2; 3]%float [2; 3]%float identity_response [1; 1]%float)).
  - lia.
  - vm_compute. reflexivity.
Defined.


(** One iteration and one more on the mixing response, against two at
    once. *)
Lemma resumed_run_equals_single_run_mixing :
  runMLEM 3 0.01%float 2 2 mixing
  = Ok (3, step_of 2 2 (step_of 2 2 mixing)).
Proof.
  apply (resumed_run_equals_single_run 1 1 0.01%float 2 2 mixing
           (step_of 2 2 mixing)).
  - vm_compute. reflexivity.
  - vm_compute. reflexivity.
Defined.

(** The run of the scenario returns the measurements and the response it
    was given. *)
Lemma runMLEM_frame_scenario :
  measurements (mkRefs [2; 3]%float [2; 3]%float identity_response [1; 1]%float)
  = measurements scenario /\
  nns_response (mkRefs [2; 3]%float [2; 3]%float identity_response [1; 1]%float)
  = nns_response scenario.
Proof.
  apply (runMLEM_frame 100 0.01%float 2 2 scenario 2).
  vm_compute. reflexivity.
Defined.

(** The run from the spectrum with an empty bin: the first estimate of
    channel 0 is zero, and the run is the one the tolerance test fixes. *)
Lemma runMLEM_never_fails_collapsed_bin :
  well_dimensioned 2 2 collapsed_bin /\
  let state (j : nat) := Nat.iter j (step_of 2 2) collapsed_bin in
  (forall j m, (m < 2)%nat ->
     vget (mlem_ratio (state (S j))) m
     = vget (measurements collapsed_bin) m
       /. vget (estimate_of 2 2 identity_response (spectrum (state j))) m) /\
  exists k : nat,
    Z.of_nat k <= Z.max 0 (100 - 1) /\
    (forall j, (1 <= j < k)%nat ->
               within_tolerance 0.01%float (mlem_ratio (state j)) = false) /\
    ((1 <= k)%nat /\
     within_tolerance 0.01%float (mlem_ratio (state k)) = true /\
     runMLEM 100 0.01%float 2 2 collapsed_bin = Ok (Z.of_nat k, state k)
     \/
     (k = 0%nat \/ within_tolerance 0.01%float (mlem_ratio (state k)) = false) /\
     Z.of_nat k = Z.max 0 (100 - 1) /\
     runMLEM 100 0.01%float 2 2 collapsed_bin = Ok (Z.max 1 100, state k)).
Proof.
  split; [exact collapsed_bin_well_dimensioned|].
  apply (runMLEM_never_fails 100 0.01%float 2 2 collapsed_bin).
  exact collapsed_bin_well_dimensioned.
Defined.

(** ** Remarks on binary64 and on the counter *)

(** A NaN ratio satisfies neither comparison of the tolerance test, so it
    passes it. *)
Remark nan_ratio_passes_the_test :
  within_tolerance 0.01%float [nan]%float = true.
Proof. vm_compute. reflexivity. Qed.

(** 0 and infinity are non-negative, their product is a NaN. *)
Remark binary64_product_of_nonneg :
  nonneg 0%float = true /\ nonneg infinity = true /\
  nonneg (0 *. infinity)%float = false /\
  not_a_number (0 *. infinity)%float = true.
Proof. repeat split; vm_compute; reflexivity. Qed.

(** Positive estimates do not keep binary64 non-negative: the two estimates
    of the first two iterations are 1 and an infinity, both positive, and the
    spectrum after the second iteration is infinity times 0, a NaN. *)
Remark nonneg_spectrum_lost_by_overflow :
  response_nonneg overflowing = true /\
  column_sums_positive 1 1 overflowing = true /\
  forallb nonneg (measurements overflowing) = true /\
  forallb nonneg (spectrum overflowing) = true /\
  estimates_positive 1 1 2 overflowing = true /\
  exists st',
    iterate 1 1 2 overflowing = Ok st' /\
    forallb nonneg (spectrum st') = false.
Proof.
  repeat (split; [vm_compute; reflexivity|]).
  eexists. split; vm_compute; reflexivity.
Qed.

(** The caps of two calls do not add up: cutoff 2 twice executes two
    iterations, cutoff 4 once executes three, and the spectra differ. *)
Remark caps_do_not_add :
  exists st1 st2 st3,
    runMLEM 2 0.01%float 2 2 mixing = Ok (2, st1) /\
    runMLEM 2 0.01%float 2 2 st1 = Ok (2, st2) /\
    runMLEM 4 0.01%float 2 2 mixing = Ok (4, st3) /\
    iterate 2 2 2 mixing = Ok st2 /\
    iterate 2 2 3 mixing = Ok st3 /\
    PrimFloat.eqb (vget (spectrum st2) 0) (vget (spectrum st3) 0) = false.
Proof.
  eexists _, _, _.
  repeat (split; [vm_compute; reflexivity|]).
  vm_compute. reflexivity.
Qed.

(** * Further properties of the code *)

(** ** What a returning run has read and written *)

Lemma at_Ok {A : Type} (v : list A) (i : nat) (x : A) :
  v.[i] = Ok x -> (i < length v)%nat.
Proof.
  unfold at_. destruct (nth_error v i) as [y|] eqn:E; [|discriminate].
  intros _. apply nth_error_Some. rewrite E. discriminate.
Qed.

Lemma assign_Ok {A : Type} (v v' : list A) (i : nat) (x : A) :
  assign v i x = Ok v' -> (i < length v)%nat /\ v' = set_nth v i x.
Proof.
  unfold assign. destruct (i <? length v)%nat eqn:E; [|discriminate].
  intros [= <-]. split; [apply Nat.ltb_lt; exact E | reflexivity].
Qed.

(** A loop that returns has executed its body at every index, from states
    that satisfy any invariant of the body. *)
Lemma for_each_Ok_inv {St : Type} (P : St -> Prop)
  (body : nat -> St -> result St) (idxs : list nat) :
  (forall i s s', In i idxs -> P s -> body i s = Ok s' -> P s') ->
  forall s s', P s -> for_each idxs body s = Ok s' ->
  P s' /\ forall i, In i idxs -> exists v v', P v /\ body i v = Ok v'.
Proof.
  induction idxs as [|i rest IH]; intros Hstep s s' Hs E; simpl in E.
  - injection E as <-. split; [exact Hs|]. intros i [].
  - inv_bind E. rename a into s1.
    assert (Hs1 : P s1) by (apply (Hstep i s s1); [left; reflexivity | assumption..]).
    destruct (IH (fun j v v' Hj => Hstep j v v' (or_intror Hj)) s1 s' Hs1 E)
      as [Hs' Hall].
    split; [exact Hs'|]. intros j [<- | Hj].
    + exists s, s1. split; assumption.
    + apply Hall. exact Hj.
Qed.

Lemma range_bound (n : Z) (len : nat) :
  (forall i, In i (range n) -> (i < len)%nat) -> (Z.to_nat n <= len)%nat.
Proof.
  intros Hall. destruct (Z.to_nat n) as [|k] eqn:E; [lia|].
  specialize (Hall k). rewrite in_range, E in Hall. lia.
Qed.

Section Bounds.

Context {T : Type} `{Scalar T}.

Variables num_measurements num_bins : Z.

Lemma compute_ratio_in_range (meas est ratio : list T) :
  compute_ratio num_measurements meas est = Ok ratio ->
  (Z.to_nat num_measurements <= length meas)%nat.
Proof.
  intros E. unfold compute_ratio in E.
  apply (for_each_Ok_inv (fun _ => True)) in E; [|trivial|trivial].
  destruct E as [_ Hall]. apply range_bound. intros i Hi.
  destruct (Hall i Hi) as [v [v' [_ Eb]]].
  inv_bind Eb. apply at_Ok in E. exact E.
Qed.

(** The update keeps the length of the spectrum and the bins from
    [num_bins] on. *)
Lemma update_spectrum_shape (c n sp sp' : list T) :
  update_spectrum num_bins c n sp = Ok sp' ->
  (Z.to_nat num_bins <= length sp)%nat /\
  length sp' = length sp /\
  forall i, (Z.to_nat num_bins <= i)%nat -> vget sp' i = vget sp i.
Proof.
  intros E. unfold update_spectrum in E.
  apply (for_each_Ok_inv
           (fun v => length v = length sp /\
                     forall i, (Z.to_nat num_bins <= i)%nat ->
                               vget v i = vget sp i)) in E.
  - destruct E as [[Hlen Htail] Hall]. split; [|split; assumption].
    apply range_bound. intros i Hi.
    destruct (Hall i Hi) as [v [v' [[Hv _] Eb]]].
    inv_bind Eb. apply at_Ok in E. lia.
  - intros i v v' Hin [Hlen Htail] Eb. apply in_range in Hin.
    inv_bind Eb. inv_bind Eb. inv_bind Eb. apply assign_Ok in Eb.
    destruct Eb as [Hi ->]. split.
    + rewrite length_set_nth. exact Hlen.
    + intros j Hj. rewrite <- (Htail j Hj). unfold vget.
      rewrite nth_set_nth by exact Hi.
      replace (j =? i)%nat with false; [reflexivity|].
      symmetry. apply Nat.eqb_neq. lia.
  - split; [reflexivity|]. intros; reflexivity.
Qed.

(** The reads of the response: with at least one bin, every row up to
    [num_measurements] exists and reaches [num_bins]. *)
Lemma apply_response_in_range (R : list (list T)) (s est : list T) :
  apply_response num_measurements num_bins R s = Ok est ->
  0 < num_bins ->
  (Z.to_nat num_measurements <= length R)%nat /\
  forall m, (m < Z.to_nat num_measurements)%nat ->
            (Z.to_nat num_bins <= length (nth m R []))%nat.
Proof.
  intros E Hb. unfold apply_response in E.
  apply (for_each_Ok_inv (fun _ => True)) in E; [|trivial|trivial].
  destruct E as [_ Hall].
  assert (Hrow : forall m, In m (range num_measurements) ->
                           (m < length R)%nat /\
                           (Z.to_nat num_bins <= length (nth m R []))%nat).
  { intros m Hm. destruct (Hall m Hm) as [v [v' [_ Eb]]].
    inv_bind Eb. clear Eb.
    apply (for_each_Ok_inv (fun _ => True)) in E; [|trivial|trivial].
    destruct E as [_ Hin].
    assert (Hm' : (m < length R)%nat).
    { destruct (Hin 0%nat) as [t [t' [_ Et]]]; [apply in_range; lia|].
      inv_bind Et. apply at_Ok in E. exact E. }
    split; [exact Hm'|].
    apply range_bound. intros b Hb'.
    destruct (Hin b Hb') as [t [t' [_ Et]]].
    rewrite (at_nth R m []) in Et by exact Hm'. simpl in Et.
    inv_bind Et. apply at_Ok in E. exact E. }
  split.
  - apply range_bound. intros m Hm. apply Hrow. exact Hm.
  - intros m Hm. apply Hrow. apply in_range. exact Hm.
Qed.

Lemma mlem_iteration_in_range (st st' : Refs T) :
  mlem_iteration num_measurements num_bins st = Ok st' ->
  (Z.to_nat num_measurements <= length (measurements st))%nat /\
  (Z.to_nat num_bins <= length (spectrum st))%nat /\
  (0 < num_bins ->
   (Z.to_nat num_measurements <= length (nns_response st))%nat /\
   forall m, (m < Z.to_nat num_measurements)%nat ->
             (Z.to_nat num_bins <= length (nth m (nns_response st) []))%nat).
Proof.
  intros E. unfold mlem_iteration in E.
  inv_bind E. rename a into est. inv_bind E. inv_bind E. inv_bind E.
  inv_bind E. inv_bind E. injection E as <-.
  split; [eapply compute_ratio_in_range; eassumption|].
  split; [eapply update_spectrum_shape; eassumption|].
  intros Hb. eapply apply_response_in_range; eassumption.
Qed.

Lemma mlem_iteration_shape (st st' : Refs T) :
  mlem_iteration num_measurements num_bins st = Ok st' ->
  length (spectrum st') = length (spectrum st) /\
  forall i, (Z.to_nat num_bins <= i)%nat ->
            vget (spectrum st') i = vget (spectrum st) i.
Proof.
  intros E. unfold mlem_iteration in E.
  inv_bind E. inv_bind E. inv_bind E. inv_bind E.
  inv_bind E. inv_bind E. injection E as <-. simpl.
  eapply update_spectrum_shape. eassumption.
Qed.

Lemma iterate_shape (n : nat) :
  forall st st' : Refs T,
    iterate num_measurements num_bins n st = Ok st' ->
    length (spectrum st') = length (spectrum st) /\
    forall i, (Z.to_nat num_bins <= i)%nat ->
              vget (spectrum st') i = vget (spectrum st) i.
Proof.
  induction n as [|n IH]; intros st st' E; simpl in E.
  - injection E as <-. split; [reflexivity | intros; reflexivity].
  - inv_bind E. apply mlem_iteration_shape in E0. apply IH in E.
    destruct E0 as [Hl0 Ht0], E as [Hl Ht]. split; [congruence|].
    intros i Hi. rewrite (Ht i Hi). apply Ht0. exact Hi.
Qed.

End Bounds.

Section RunShape.

Context {T : Type} `{Scalar T}.

Variable error : T.
Variables num_measurements num_bins : Z.

Lemma iterate_ratio_length (n : nat) :
  forall st st' : Refs T,
    (1 <= n)%nat ->
    iterate num_measurements num_bins n st = Ok st' ->
    length (mlem_ratio st') = Z.to_nat num_measurements.
Proof.
  induction n as [|n IH]; intros st st' Hn E; [lia|]. simpl in E.
  inv_bind E. rename a into st1. destruct n as [|n].
  - simpl in E. injection E as <-.
    apply mlem_iteration_frame in E0. apply E0.
  - apply (IH st1 st'); [lia | exact E].
Qed.

(** The loop stops at the first iteration whose ratios all pass the test. *)
Lemma mlem_loop_stops_at (k : nat) :
  forall (n : nat) (idx : Z) (st st_k : Refs T),
    (1 <= k <= n)%nat ->
    iterate num_measurements num_bins k st = Ok st_k ->
    within_tolerance error (mlem_ratio st_k) = true ->
    (forall j st_j, (1 <= j < k)%nat ->
                    iterate num_measurements num_bins j st = Ok st_j ->
                    within_tolerance error (mlem_ratio st_j) = false) ->
    mlem_loop error num_measurements num_bins n idx st
    = Ok (idx + Z.of_nat k - 1, st_k).
Proof.
  induction k as [|k IH]; intros n idx st st_k Hk Eit Hpass Hfail; [lia|].
  destruct n as [|n]; [lia|].
  cbn [iterate] in Eit. inv_bind Eit. rename a into st1.
  cbn [mlem_loop]. rewrite E, bind_of_Ok.
  pose proof (mlem_iteration_frame _ _ _ _ E) as [_ [_ Hlen]].
  rewrite (check_ratios_ok error _ _ Hlen), bind_of_Ok.
  destruct k as [|k].
  - simpl in Eit. injection Eit as <-. rewrite Hpass. simpl.
    f_equal. f_equal. lia.
  - rewrite (Hfail 1%nat st1) by (lia || (simpl; rewrite E; reflexivity)).
    simpl negb. cbv iota.
    rewrite (IH n (idx + 1) st1 st_k); [f_equal; f_equal; lia | lia | exact Eit
                                        | exact Hpass |].
    intros j st_j Hj Ej. apply (Hfail (S j)); [lia|].
    cbn [iterate]. rewrite E. exact Ej.
Qed.

(** Without such an iteration the counter runs up to its bound. *)
Lemma mlem_loop_exhausts (n : nat) :
  forall (idx : Z) (st st_n : Refs T),
    iterate num_measurements num_bins n st = Ok st_n ->
    (forall j st_j, (1 <= j <= n)%nat ->
                    iterate num_measurements num_bins j st = Ok st_j ->
                    within_tolerance error (mlem_ratio st_j) = false) ->
    mlem_loop error num_measurements num_bins n idx st
    = Ok (idx + Z.of_nat n, st_n).
Proof.
  induction n as [|n IH]; intros idx st st_n Eit Hfail.
  - simpl in Eit. injection Eit as <-. simpl. f_equal. f_equal. lia.
  - cbn [iterate] in Eit. inv_bind Eit. rename a into st1.
    cbn [mlem_loop]. rewrite E, bind_of_Ok.
    pose proof (mlem_iteration_frame _ _ _ _ E) as [_ [_ Hlen]].
    rewrite (check_ratios_ok error _ _ Hlen), bind_of_Ok.
    rewrite (Hfail 1%nat st1) by (lia || (simpl; rewrite E; reflexivity)).
    simpl negb. cbv iota.
    rewrite (IH (idx + 1) st1 st_n); [f_equal; f_equal; lia | exact Eit |].
    intros j st_j Hj Ej. apply (Hfail (S j)); [lia|].
    cbn [iterate]. rewrite E. exact Ej.
Qed.

End RunShape.

Lemma runMLEM_first_iteration {T : Type} `{Scalar T} (cutoff : Z) (error : T)
  (num_measurements num_bins : Z) (st : Refs T) (idx : Z) (st' : Refs T) :
  1 < cutoff ->
  runMLEM cutoff error num_measurements num_bins st = Ok (idx, st') ->
  exists st1, mlem_iteration num_measurements num_bins st = Ok st1.
Proof.
  intros Hc E. unfold runMLEM in E.
  destruct (Z.to_nat (cutoff - 1)) as [|n] eqn:En; [lia|].
  cbn [mlem_loop] in E. inv_bind E. exists a. exact E0.
Qed.

Section RunProperties.

Context {T : Type} `{Scalar T}.

(** X1. [runMLEM] checks no dimension itself.  Called with a cutoff above 1
    and a [measurements] shorter than [num_measurements], or a [spectrum]
    shorter than [num_bins], or (when there is a bin at all) a response
    with fewer than [num_measurements] rows or with one of its first
    [num_measurements] rows shorter than [num_bins], its first iteration
    reads outside a vector. *)
Theorem runMLEM_reads_out_of_range (cutoff : Z) (error : T)
  (num_measurements num_bins : Z) (st : Refs T) :
  1 < cutoff ->
  (length (measurements st) < Z.to_nat num_measurements)%nat \/
  (length (spectrum st) < Z.to_nat num_bins)%nat \/
  (0 < num_bins /\
   ((length (nns_response st) < Z.to_nat num_measurements)%nat \/
    exists m, (m < Z.to_nat num_measurements)%nat /\
              (length (nth m (nns_response st) []) < Z.to_nat num_bins)%nat)) ->
  runMLEM cutoff error num_measurements num_bins st = OutOfRange.
Proof.
  intros Hc Hshort.
  destruct (runMLEM cutoff error num_measurements num_bins st)
    as [[idx st']|] eqn:E; [|reflexivity].
  exfalso.
  destruct (runMLEM_first_iteration _ _ _ _ _ _ _ Hc E) as [st1 E1].
  apply mlem_iteration_in_range in E1. destruct E1 as [Hm [Hs Hr]].
  destruct Hshort as [H1 | [H2 | [Hb [H3 | [m [Hm' H4]]]]]].
  - lia.
  - lia.
  - destruct (Hr Hb) as [Hrows _]. lia.
  - destruct (Hr Hb) as [_ Hrow]. specialize (Hrow m Hm'). lia.
Qed.

(** X2. A returning call of [runMLEM] never resizes the spectrum and never
    changes a bin at an index from [num_bins] on; with a cutoff above 1 the
    ratio vector it leaves has exactly [num_measurements] entries, whatever
    it held before. *)
Theorem runMLEM_keeps_shape (cutoff : Z) (error : T)
  (num_measurements num_bins : Z) (st : Refs T) (idx : Z) (st' : Refs T) :
  runMLEM cutoff error num_measurements num_bins st = Ok (idx, st') ->
  length (spectrum st') = length (spectrum st) /\
  (forall i, (Z.to_nat num_bins <= i)%nat ->
             vget (spectrum st') i = vget (spectrum st) i) /\
  (1 < cutoff -> length (mlem_ratio st') = Z.to_nat num_measurements).
Proof.
  intros E. apply runMLEM_inv in E.
  destruct E as [k [Hk [Eit [_ Hend]]]].
  pose proof (iterate_shape _ _ _ _ _ Eit) as [Hlen Htail].
  split; [exact Hlen|]. split; [exact Htail|].
  intros Hc.
  apply (iterate_ratio_length num_measurements num_bins k st st');
    [|exact Eit].
  destruct Hend as [[Hk1 _] | [Hkn _]]; lia.
Qed.

(** X3. [runMLEM] stops at the first iteration whose ratios all pass the
    tolerance test: if the [k]-th iteration is below the cutoff, its ratios
    pass and those of every earlier iteration do not, the call returns [k]
    and the state after [k] iterations. *)
Theorem runMLEM_stops_at_first_pass (cutoff : Z) (error : T)
  (num_measurements num_bins : Z) (k : nat) (st st_k : Refs T) :
  (1 <= k)%nat -> Z.of_nat k < cutoff ->
  iterate num_measurements num_bins k st = Ok st_k ->
  within_tolerance error (mlem_ratio st_k) = true ->
  (forall j st_j, (1 <= j < k)%nat ->
                  iterate num_measurements num_bins j st = Ok st_j ->
                  within_tolerance error (mlem_ratio st_j) = false) ->
  runMLEM cutoff error num_measurements num_bins st = Ok (Z.of_nat k, st_k).
Proof.
  intros Hk Hc Eit Hpass Hfail. unfold runMLEM.
  rewrite (mlem_loop_stops_at error num_measurements num_bins k
             (Z.to_nat (cutoff - 1)) 1 st st_k) by (assumption || lia).
  f_equal. f_equal. lia.
Qed.

(** X4. When the ratios of none of the cutoff - 1 iterations pass the test,
    [runMLEM] executes them all and returns the cutoff (1 for a cutoff
    below 1) with the state after the last one. *)
Theorem runMLEM_exhausts_cutoff (cutoff : Z) (error : T)
  (num_measurements num_bins : Z) (st st_n : Refs T) :
  iterate num_measurements num_bins (Z.to_nat (cutoff - 1)) st = Ok st_n ->
  (forall j st_j, (1 <= j <= Z.to_nat (cutoff - 1))%nat ->
                  iterate num_measurements num_bins j st = Ok st_j ->
                  within_tolerance error (mlem_ratio st_j) = false) ->
  runMLEM cutoff error num_measurements num_bins st
  = Ok (Z.max 1 cutoff, st_n).
Proof.
  intros Eit Hfail. unfold runMLEM.
  rewrite (mlem_loop_exhausts error num_measurements num_bins _ 1 st st_n)
    by assumption.
  f_equal. f_equal. lia.
Qed.

(** X5. A call that stopped before its cutoff returns the same count and
    the same state under every larger cutoff. *)
Theorem runMLEM_larger_cutoff_same_result (cutoff cutoff' : Z) (error : T)
  (num_measurements num_bins : Z) (st : Refs T) (idx : Z) (st' : Refs T) :
  runMLEM cutoff error num_measurements num_bins st = Ok (idx, st') ->
  idx < cutoff -> cutoff <= cutoff' ->
  runMLEM cutoff' error num_measurements num_bins st = Ok (idx, st').
Proof.
  intros E Hidx Hc. apply runMLEM_inv in E.
  destruct E as [k [Hk [Eit [Hmid Hend]]]].
  destruct Hend as [[Hk1 [-> Hw]] | [_ [Hi _]]]; [|lia].
  unfold runMLEM.
  rewrite (mlem_loop_stops_at error num_measurements num_bins k
             (Z.to_nat (cutoff' - 1)) 1 st st') by (assumption || lia).
  f_equal. f_equal. lia.
Qed.

End RunProperties.

(** The scenario returns, so its reads were in range. *)
Lemma runMLEM_reads_out_of_range_third_measurement :
  runMLEM 100 0.01%float 3 2 scenario = OutOfRange.
Proof.
  apply runMLEM_reads_out_of_range; [lia|]. left. simpl. lia.
Defined.

(** The scenario keeps two bins and leaves two ratios. *)
Lemma runMLEM_keeps_shape_scenario :
  length [2; 3]%float = length (spectrum scenario) /\
  (1 < 100 -> length [1; 1]%float = Z.to_nat 2).
Proof.
  destruct (runMLEM_keeps_shape 100 0.01%float 2 2 scenario 2
              (mkRefs [2; 3]%float [2; 3]%float identity_response
                 [1; 1]%float)) as [Hl [_ Hr]].
  - vm_compute. reflexivity.
  - split; [exact Hl | exact Hr].
Defined.

(** The scenario: the ratios of iteration 1 fail the test, those of
    iteration 2 pass. *)
Lemma runMLEM_stops_at_first_pass_scenario :
  runMLEM 100 0.01%float 2 2 scenario
  = Ok (2, mkRefs [2; 3]%float [2; 3]%float identity_response [1; 1]%float).
Proof.
  apply (runMLEM_stops_at_first_pass 100 0.01%float 2 2 2 scenario).
  - lia.
  - lia.
  - vm_compute. reflexivity.
  - vm_compute. reflexivity.
  - intros j st_j Hj Ej. assert (j = 1%nat) as -> by lia.
    vm_compute in Ej. injection Ej as <-. vm_compute. reflexivity.
Defined.

(** The mixing response with cutoff 3: neither iteration passes. *)
Lemma runMLEM_exhausts_cutoff_mixing :
  runMLEM 3 0.01%float 2 2 mixing
  = Ok (Z.max 1 3, step_of 2 2 (step_of 2 2 mixing)).
Proof.
  apply (runMLEM_exhausts_cutoff 3 0.01%float 2 2 mixing).
  - vm_compute. reflexivity.
  - intros j st_j Hj Ej.
    assert (j = 1%nat \/ j = 2%nat) as [-> | ->] by (simpl in Hj; lia);
      vm_compute in Ej; injection Ej as <-; vm_compute; reflexivity.
Defined.

(** The scenario under cutoff 100 and under cutoff 1000. *)
Lemma runMLEM_larger_cutoff_same_result_scenario :
  runMLEM 1000 0.01%float 2 2 scenario
  = Ok (2, mkRefs [2; 3]%float [2; 3]%float identity_response [1; 1]%float).
Proof.
  apply (runMLEM_larger_cutoff_same_result 100 1000 0.01%float 2 2 scenario).
  - vm_compute. reflexivity.
  - lia.
  - lia.
Defined.

(** ** Command-line arguments *)

Section CommandLine.

Local Open Scope string_scope.

Lemma find_absent (v : list String.string) (x : String.string) :
  ~ In x v -> find v x = length v.
Proof.
  induction v as [|y v IH]; intros Hx; simpl.
  - reflexivity.
  - destruct (String.eqb y x) eqn:E.
    + apply String.eqb_eq in E. exfalso. apply Hx. left. exact E.
    + rewrite IH; [reflexivity|]. intros Hin. apply Hx. right. exact Hin.
Qed.

Lemma find_first (pre post : list String.string) (x : String.string) :
  ~ In x pre -> find (pre ++ x :: post) x = length pre.
Proof.
  induction pre as [|y pre IH]; intros Hx; simpl.
  - rewrite String.eqb_refl. reflexivity.
  - destruct (String.eqb y x) eqn:E.
    + apply String.eqb_eq in E. exfalso. apply Hx. left. exact E.
    + rewrite IH; [reflexivity|]. intros Hin. apply Hx. right. exact Hin.
Qed.

Lemma find_present (v : list String.string) (x : String.string) :
  In x v -> (find v x < length v)%nat.
Proof.
  induction v as [|y v IH]; intros Hx; simpl.
  - destruct Hx.
  - destruct (String.eqb y x) eqn:E; [lia|].
    apply String.eqb_neq in E. destruct Hx as [Hx | Hx]; [contradiction|].
    apply IH in Hx. lia.
Qed.

Lemma find_known (v : list String.string) (x : String.string) :
  (find v x =? length v)%nat = false <-> In x v.
Proof.
  split.
  - intros E. apply Nat.eqb_neq in E.
    destruct (in_dec String.string_dec x v) as [Hin | Hout]; [exact Hin|].
    apply find_absent in Hout. contradiction.
  - intros Hin. apply Nat.eqb_neq. apply find_present in Hin. lia.
Qed.

(** X6. When the flag is not among the arguments, [setfile] sets the file
    name to the directory followed by the default name, and writes
    nothing. *)
Theorem setfile_default (arg_vector : list String.string)
  (directory arg_string default_filename filename : String.string) :
  ~ In arg_string arg_vector ->
  setfile arg_vector directory arg_string default_filename filename
  = (1, directory +++ default_filename, []).
Proof.
  intros Hx. unfold setfile. rewrite (find_absent _ _ Hx), Nat.eqb_refl.
  reflexivity.
Qed.

(** X7. When the flag occurs, [setfile] takes the argument that follows its
    first occurrence as the file name, whatever that argument is (another
    flag included), and puts the directory in front of it. *)
Theorem setfile_takes_next_argument (pre post : list String.string)
  (directory arg_string value default_filename filename : String.string) :
  ~ In arg_string pre ->
  setfile (pre ++ arg_string :: value :: post) directory arg_string
    default_filename filename
  = (1, directory +++ value, []).
Proof.
  intros Hx. unfold setfile. rewrite (find_first _ _ _ Hx).
  rewrite length_app. simpl length.
  replace (length pre =? length pre + S (S (length post)))%nat with false
    by (symmetry; apply Nat.eqb_neq; lia).
  replace (length pre + 1 =? length pre + S (S (length post)))%nat with false
    by (symmetry; apply Nat.eqb_neq; lia).
  simpl negb. cbv iota.
  rewrite app_nth2 by lia.
  replace (length pre + 1 - length pre)%nat with 1%nat by lia.
  reflexivity.
Qed.

(** X8. When the first occurrence of the flag is the last argument,
    [setfile] leaves the file name as it was, writes an error message and
    still returns 1. *)
Theorem setfile_flag_without_value (pre : list String.string)
  (directory arg_string default_filename filename : String.string) :
  ~ In arg_string pre ->
  setfile (pre ++ [arg_string]) directory arg_string default_filename filename
  = (1, filename,
     ["Error: no file provided for argument: " +++ arg_string +++ newline]).
Proof.
  intros Hx. unfold setfile. rewrite (find_first _ _ _ Hx).
  rewrite length_app. simpl length.
  replace (length pre =? length pre + 1)%nat with false
    by (symmetry; apply Nat.eqb_neq; lia).
  rewrite Nat.eqb_refl. simpl negb. cbv iota.
  rewrite app_nth2 by lia.
  replace (length pre + 1 - 1 - length pre)%nat with 0%nat by lia.
  reflexivity.
Qed.

Lemma unknown_loop_past_end (remaining : nat)
  (arg_vector flags : list String.string) (i : nat) :
  (length arg_vector <= i)%nat -> unknown_loop remaining arg_vector flags i = [].
Proof.
  intros Hi. destruct remaining as [|remaining]; simpl; [reflexivity|].
  replace (i <? length arg_vector)%nat with false; [reflexivity|].
  symmetry. apply Nat.ltb_ge. exact Hi.
Qed.

(** The loop over the indices reads the arguments as the recursion does. *)
Lemma unknown_loop_suffix (flags : list String.string) (remaining : nat) :
  forall pre suffix : list String.string,
    (length suffix <= remaining)%nat ->
    unknown_loop remaining (pre ++ suffix) flags (length pre)
    = map (fun arg => "Warning: Ignored unknown argument " +++ arg +++ newline)
        (unknown_arguments suffix flags).
Proof.
  induction remaining as [|remaining IH]; intros pre suffix Hlen.
  - destruct suffix; [reflexivity | simpl in Hlen; lia].
  - destruct suffix as [|arg rest].
    + apply unknown_loop_past_end. rewrite app_nil_r. lia.
    + cbn [unknown_loop unknown_arguments].
      replace (length pre <? length (pre ++ arg :: rest))%nat with true
        by (symmetry; apply Nat.ltb_lt; rewrite length_app; simpl; lia).
      rewrite app_nth2 by lia. rewrite Nat.sub_diag. cbn [nth].
      simpl in Hlen.
      destruct (find flags arg =? length flags)%nat.
      * cbn [map]. f_equal.
        specialize (IH (pre ++ [arg]) rest).
        rewrite <- app_assoc, length_app in IH. apply IH. lia.
      * destruct rest as [|next rest'].
        -- apply unknown_loop_past_end. rewrite length_app. simpl. lia.
        -- specialize (IH (pre ++ [arg; next]) rest').
           rewrite <- app_assoc, length_app in IH. simpl in IH.
           replace (length pre + 1 + 1)%nat with (length pre + 2)%nat by lia.
           apply IH. simpl in Hlen. lia.
Qed.

Lemma checkUnknownParameters_closed (arg_vector flags : list String.string) :
  checkUnknownParameters arg_vector flags
  = map (fun arg => "Warning: Ignored unknown argument " +++ arg +++ newline)
      (unknown_arguments arg_vector flags).
Proof.
  unfold checkUnknownParameters.
  apply (unknown_loop_suffix flags (length arg_vector) [] arg_vector). lia.
Qed.

Lemma unknown_arguments_sound (flags : list String.string) (n : nat) :
  forall args : list String.string,
    (length args <= n)%nat ->
    forall arg, In arg (unknown_arguments args flags) ->
                In arg args /\ ~ In arg flags.
Proof.
  induction n as [|n IH]; intros args Hn arg Hin.
  - destruct args; [destruct Hin | simpl in Hn; lia].
  - destruct args as [|a rest]; [destruct Hin|]. simpl in Hn.
    cbn [unknown_arguments] in Hin.
    destruct (find flags a =? length flags)%nat eqn:E.
    + destruct Hin as [<- | Hin].
      * split; [left; reflexivity|]. intros Hk.
        apply find_known in Hk. congruence.
      * destruct (IH rest ltac:(lia) arg Hin) as [H1 H2].
        split; [right; exact H1 | exact H2].
    + destruct rest as [|next rest']; [destruct Hin|].
      destruct (IH rest' ltac:(simpl in Hn; lia) arg Hin) as [H1 H2].
      split; [right; right; exact H1 | exact H2].
Qed.

(** X9. Every line [checkUnknownParameters] writes is the warning for an
    argument that was passed and is not one of the flags: a known flag is
    never reported. *)
Theorem checkUnknownParameters_sound
  (arg_vector flags : list String.string) (line : String.string) :
  In line (checkUnknownParameters arg_vector flags) ->
  exists arg,
    line = "Warning: Ignored unknown argument " +++ arg +++ newline /\
    In arg arg_vector /\ ~ In arg flags.
Proof.
  rewrite checkUnknownParameters_closed. intros Hin.
  apply in_map_iff in Hin. destruct Hin as [arg [<- Harg]].
  exists arg. split; [reflexivity|].
  apply (unknown_arguments_sound flags (length arg_vector) arg_vector);
    [lia | exact Harg].
Qed.

(** X10. The argument after a known flag is never examined: on a command
    line made of pairs of a known flag and a value, nothing is written,
    whatever the values are. *)
Theorem checkUnknownParameters_skips_values
  (pairs : list (String.string * String.string))
  (flags : list String.string) :
  (forall p, In p pairs -> In (fst p) flags) ->
  checkUnknownParameters (flat_map (fun p => [fst p; snd p]) pairs) flags = [].
Proof.
  intros Hflags. rewrite checkUnknownParameters_closed.
  replace (unknown_arguments (flat_map (fun p => [fst p; snd p]) pairs) flags)
    with (@nil String.string); [reflexivity|].
  symmetry. induction pairs as [|p pairs IH]; [reflexivity|].
  cbn [flat_map app unknown_arguments].
  replace (find flags (fst p) =? length flags)%nat with false.
  - apply IH. intros q Hq. apply Hflags. right. exact Hq.
  - symmetry. apply find_known. apply Hflags. left. reflexivity.
Qed.

End CommandLine.

(** ** The configuration file *)

Section Configuration.

Local Open Scope string_scope.

Lemma length_assignment (name value : String.string) :
  String.length (name +++ String.String equals_sign value)
  = (String.length name + 1 + String.length value)%nat.
Proof.
  induction name as [|c name IH].
  - reflexivity.
  - cbn [String.append String.length]. rewrite IH. reflexivity.
Qed.

Lemma index_of_assignment (name value : String.string) :
  no_equals_sign name ->
  String.index 0 "=" (name +++ String.String equals_sign value)
  = Some (String.length name).
Proof.
  unfold no_equals_sign. induction name as [|c name IH]; intros Hname.
  - cbn [String.append String.index String.prefix].
    destruct (Ascii.ascii_dec _ _) as [_ | Hne]; [|contradiction].
    destruct value; reflexivity.
  - simpl in Hname. cbn [String.append String.index String.prefix].
    destruct (Ascii.ascii_dec _ c) as [<- | Hne].
    + exfalso. apply Hname. left. reflexivity.
    + rewrite IH; [reflexivity|].
      intros Hin. apply Hname. right. exact Hin.
Qed.

Lemma substring_whole (s : String.string) :
  String.substring 0 (String.length s) s = s.
Proof.
  induction s as [|c s IH]; simpl; [reflexivity|]. rewrite IH. reflexivity.
Qed.

Lemma substring_of_assignment (name value : String.string) :
  String.substring (String.length name + 1) (String.length value)
    (name +++ String.String equals_sign value) = value.
Proof.
  induction name as [|c name IH].
  - apply substring_whole.
  - exact IH.
Qed.

Lemma token_after_equals (name value : String.string) :
  no_equals_sign name -> token (name +++ "=" +++ value) = value.
Proof.
  intros Hname. unfold token.
  change (name +++ "=" +++ value)
    with (name +++ String.String equals_sign value).
  rewrite (index_of_assignment name value Hname), length_assignment.
  replace (String.length name + 1 + String.length value
           - (String.length name + 1))%nat
    with (String.length value) by lia.
  apply substring_of_assignment.
Qed.

(** X11. The value of a configuration line [name=value] is [value], for
    every name without an equals sign (an equals sign inside the value is
    kept). *)
Theorem token_of_assignment (name value : String.string) :
  no_equals_sign name -> token (name +++ "=" +++ value) = value.
Proof. exact (token_after_equals name value). Qed.

Lemma index_without_equals (line : String.string) :
  no_equals_sign line -> String.index 0 "=" line = None.
Proof.
  unfold no_equals_sign. induction line as [|c line IH]; intros Hline.
  - reflexivity.
  - simpl in Hline. cbn [String.index String.prefix].
    destruct (Ascii.ascii_dec _ c) as [<- | Hne].
    + exfalso. apply Hline. left. reflexivity.
    + rewrite IH; [reflexivity|].
      intros Hin. apply Hline. right. exact Hin.
Qed.

(** X12. A configuration line without an equals sign is taken whole as the
    value. *)
Theorem token_without_equals (line : String.string) :
  no_equals_sign line -> token line = line.
Proof.
  intros Hline. unfold token. rewrite (index_without_equals line Hline).
  reflexivity.
Qed.

Context {T : Type} `{Scalar T}.

Variable atof : String.string -> T.
Variable to_int : T -> Z.

(** X13. The settings are positional: when the first five lines of the
    file are [name=value] lines, [setSettings] returns true with the five
    values in the order cutoff, norm, error, f_factor, num_poisson_samples,
    whatever the names are and whatever lines follow. *)
Theorem setSettings_positional
  (n0 n1 n2 n3 n4 v0 v1 v2 v3 v4 : String.string)
  (more : list String.string) :
  no_equals_sign n0 -> no_equals_sign n1 -> no_equals_sign n2 ->
  no_equals_sign n3 -> no_equals_sign n4 ->
  setSettings atof to_int
    (Some ((n0 +++ "=" +++ v0) :: (n1 +++ "=" +++ v1) :: (n2 +++ "=" +++ v2)
           :: (n3 +++ "=" +++ v3) :: (n4 +++ "=" +++ v4) :: more))
  = Ok (true, Some (to_int (atof v0), atof v1, atof v2, atof v3,
                    to_int (atof v4))).
Proof.
  intros H0 H1 H2 H3 H4. unfold setSettings. cbn [map].
  rewrite !token_after_equals by assumption. reflexivity.
Qed.

(** X14. A file that opens but has fewer than five lines never makes
    [setSettings] return false: the function reads [settings] beyond its
    end. *)
Theorem setSettings_short_file (lines : list String.string) :
  (length lines < 5)%nat ->
  setSettings atof to_int (Some lines) = OutOfRange.
Proof.
  intros Hlen. unfold setSettings.
  destruct lines as [|l0 [|l1 [|l2 [|l3 [|l4 rest]]]]];
    try reflexivity.
  simpl in Hlen. lia.
Qed.

End Configuration.

(** ** From the input files to the call of [runMLEM] *)

Lemma for_each_app {St : Type} (l1 l2 : list nat)
  (body : nat -> St -> result St) (s : St) :
  for_each (l1 ++ l2) body s = (s' <- for_each l1 body s ;; for_each l2 body s').
Proof.
  revert s. induction l1 as [|i l1 IH]; intros s; simpl.
  - reflexivity.
  - destruct (body i s) as [s1|]; simpl; [apply IH | reflexivity].
Qed.

Lemma and_then_Returned {A B : Type} (o : outcome A) (k : A -> outcome B)
  (b : B) :
  and_then o k = Returned b -> exists a, o = Returned a /\ k a = Returned b.
Proof.
  destruct o as [a | what |]; simpl; intros E; try discriminate.
  exists a. split; [reflexivity | exact E].
Qed.

Lemma lift_Returned {A : Type} (r : result A) (a : A) :
  lift r = Returned a -> r = Ok a.
Proof. destruct r; simpl; intros E; [injection E as -> |]; congruence. Qed.

Lemma checkDimensions_Returned (reference_size test_size : Z)
  (reference_string test_string : String.string) (r : Z) :
  checkDimensions reference_size reference_string test_size test_string
  = Returned r ->
  reference_size = test_size.
Proof.
  unfold checkDimensions.
  destruct (reference_size =? test_size) eqn:E; simpl; [|discriminate].
  intros _. apply Z.eqb_eq. exact E.
Qed.

Section Prelude.

Context {T : Type} `{Scalar T}.

Variables norm f_factor : T.
Variable duration : Z.
Variables dose_mu doserate_mu : T.

Let cps (nc : T) : T :=
  nc *. norm /. f_factor /. of_int duration *. (dose_mu /. doserate_mu).

(** X15. The conversion of the measured charges never reads out of range
    and returns the converted values in the reverse order: entry [i] comes
    from the charge at index n - 1 - i. *)
Theorem measurements_cps_reverses (measurements_nc : list T) :
  measurements_cps norm f_factor duration dose_mu doserate_mu measurements_nc
  = Ok (map cps (rev measurements_nc)).
Proof.
  unfold measurements_cps.
  set (n := length measurements_nc).
  rewrite (for_each_push _ _ (fun i => cps (vget measurements_nc (n - 1 - i)))
             []).
  - f_equal. rewrite app_nil_l. unfold range. rewrite Nat2Z.id.
    apply (nth_ext _ _ (cps zero) (cps zero)).
    + rewrite !length_map, length_seq, length_rev. reflexivity.
    + intros i Hi. rewrite length_map, length_seq in Hi.
      rewrite nth_map_seq by exact Hi.
      rewrite (map_nth cps), rev_nth by exact Hi.
      unfold vget. f_equal. f_equal. fold n. lia.
  - intros i v Hi. apply in_range in Hi. rewrite Nat2Z.id in Hi.
    replace (Z.to_nat (Z.of_nat n - Z.of_nat i - 1)) with (n - 1 - i)%nat
      by lia.
    rewrite (at_nth _ _ zero) by (fold n; lia).
    rewrite bind_of_Ok. reflexivity.
Qed.

Lemma main_checks_Returned (measurements_nc energy_bins : list T)
  (nns_response : list (list T)) (initial_spectrum icrp_factors : list T)
  (sizes : Z * Z) :
  main_checks measurements_nc energy_bins nns_response initial_spectrum
    icrp_factors = Returned sizes ->
  sizes = (Z.of_nat (length measurements_nc), Z.of_nat (length energy_bins)) /\
  length nns_response = length measurements_nc /\
  (exists row, nns_response.[0] = Ok row /\
               length row = length energy_bins) /\
  length initial_spectrum = length energy_bins /\
  length icrp_factors = length energy_bins.
Proof.
  intros E. unfold main_checks in E.
  apply and_then_Returned in E. destruct E as [r1 [E1 E]].
  apply and_then_Returned in E. destruct E as [row [E2 E]].
  apply and_then_Returned in E. destruct E as [r3 [E3 E]].
  apply and_then_Returned in E. destruct E as [r4 [E4 E]].
  apply and_then_Returned in E. destruct E as [r5 [E5 E]].
  apply checkDimensions_Returned in E1, E3, E4, E5. apply lift_Returned in E2.
  injection E as <-.
  split; [reflexivity|]. split; [lia|].
  split; [exists row; split; [exact E2 | lia]|]. split; lia.
Qed.

Variables measurements_nc energy_bins : list T.
Variable nns_response : list (list T).
Variables initial_spectrum icrp_factors : list T.

Let prelude :=
  main_prelude norm f_factor duration dose_mu doserate_mu measurements_nc
    energy_bins nns_response initial_spectrum icrp_factors.

Lemma main_prelude_Returned (num_measurements num_bins : Z) (st : Refs T) :
  prelude = Returned (num_measurements, num_bins, st) ->
  st = mkRefs (map cps (rev measurements_nc)) initial_spectrum nns_response []
  /\ (8 <= length measurements_nc)%nat /\
  main_checks measurements_nc energy_bins nns_response initial_spectrum
    icrp_factors = Returned (num_measurements, num_bins).
Proof.
  unfold prelude, main_prelude. intros E.
  rewrite measurements_cps_reverses in E. cbn [lift and_then] in E.
  apply and_then_Returned in E. destruct E as [shown [E1 E]].
  apply and_then_Returned in E. destruct E as [sizes [E2 E]].
  injection E as <- <- <-. apply lift_Returned in E1.
  split; [reflexivity|]. split; [|destruct sizes; exact E2].
  apply (for_each_Ok_inv (fun _ => True)) in E1; [|trivial|trivial].
  destruct E1 as [_ Hall].
  destruct (Hall 7%nat) as [v [v' [_ Eb]]].
  { apply in_range. simpl. lia. }
  inv_bind Eb. apply at_Ok in E.
  rewrite length_map, length_rev in E. lia.
Qed.

(** X16. With fewer than eight measurements [main] reads [measurements[i]]
    beyond the end of the vector: the loop that writes the measurements to
    [std::cout] (lines 172-175) has the bound 8 whatever their number, and
    it runs before any check of the dimensions. *)
Theorem main_prelude_reads_eight_measurements :
  (length measurements_nc < 8)%nat -> prelude = Undefined.
Proof.
  intros Hlen. unfold prelude, main_prelude.
  rewrite measurements_cps_reverses. cbn [lift and_then].
  match goal with
  | |- and_then (lift ?r) _ = _ => destruct r as [shown|] eqn:E
  end; [|reflexivity].
  exfalso.
  apply (for_each_Ok_inv (fun _ => True)) in E; [|trivial|trivial].
  destruct E as [_ Hall].
  destruct (Hall 7%nat) as [v [v' [_ Eb]]].
  { apply in_range. simpl. lia. }
  inv_bind Eb. apply at_Ok in E.
  rewrite length_map, length_rev in E. lia.
Qed.

(** X17. When the checks of [main] pass and every row of the response has
    the length of the first, the arguments [main] passes to [runMLEM] have
    matching dimensions and the call returns, for every cutoff and
    tolerance. *)
Theorem main_prelude_guards_rectangular_response
  (num_measurements num_bins : Z) (st : Refs T) (cutoff : Z) (error : T) :
  prelude = Returned (num_measurements, num_bins, st) ->
  (forall row, In row nns_response ->
               length row = length (nth 0 nns_response [])) ->
  well_dimensioned num_measurements num_bins st /\
  exists idx st',
    runMLEM cutoff error num_measurements num_bins st = Ok (idx, st').
Proof.
  intros E Hrect. apply main_prelude_Returned in E.
  destruct E as [-> [_ E]]. apply main_checks_Returned in E.
  destruct E as [Es [HR [[row [Erow Hrow]] [Hs _]]]].
  injection Es as -> ->.
  assert (Hd : well_dimensioned (Z.of_nat (length measurements_nc))
                 (Z.of_nat (length energy_bins))
                 (mkRefs (map cps (rev measurements_nc)) initial_spectrum
                    nns_response [])).
  { unfold well_dimensioned. simpl. rewrite !Nat2Z.id.
    split; [rewrite length_map, length_rev; reflexivity|].
    split; [exact HR|]. split; [|exact Hs].
    apply Forall_forall. intros r Hr. rewrite (Hrect r Hr).
    pose proof (at_Ok _ _ _ Erow) as H0.
    rewrite (at_nth _ _ []) in Erow by exact H0.
    injection Erow as <-. exact Hrow. }
  split; [exact Hd|].
  destruct (mlem_loop_returns error _ _ (Z.to_nat (cutoff - 1)) 1 _ Hd)
    as [idx [st' [E _]]].
  exists idx, st'. exact E.
Qed.

(** X18. The checks of [main] look at the first row of the response only:
    when they pass and some row among the first [num_measurements] is
    shorter than the number of energy bins, the call of [runMLEM] with a
    cutoff above 1 reads out of range. *)
Theorem main_prelude_misses_jagged_response
  (num_measurements num_bins : Z) (st : Refs T) (cutoff : Z) (error : T)
  (m : nat) :
  prelude = Returned (num_measurements, num_bins, st) ->
  (m < length nns_response)%nat ->
  (length (nth m nns_response []) < length energy_bins)%nat ->
  1 < cutoff ->
  runMLEM cutoff error num_measurements num_bins st = OutOfRange.
Proof.
  intros E Hm Hshort Hc. apply main_prelude_Returned in E.
  destruct E as [-> [_ E]]. apply main_checks_Returned in E.
  destruct E as [Es [HR _]]. injection Es as -> ->.
  destruct (runMLEM cutoff error _ _ _) as [[idx st']|] eqn:Erun;
    [|reflexivity].
  exfalso.
  destruct (runMLEM_first_iteration _ _ _ _ _ _ _ Hc Erun) as [st1 E1].
  apply mlem_iteration_in_range in E1. destruct E1 as [_ [_ Hrows]].
  simpl in Hrows. destruct Hrows as [_ Hrows]; [lia|].
  specialize (Hrows m). rewrite !Nat2Z.id in Hrows. lia.
Qed.

End Prelude.

(** ** The ambient dose *)

Lemma fold_left_ext_in {A B : Type} (f g : A -> B -> A) (l : list B) :
  (forall a x, In x l -> f a x = g a x) ->
  forall acc, fold_left f l acc = fold_left g l acc.
Proof.
  induction l as [|x l IH]; intros Hfg acc; simpl.
  - reflexivity.
  - rewrite Hfg by (left; reflexivity).
    apply IH. intros a y Hy. apply Hfg. right. exact Hy.
Qed.

Lemma for_each_ext {St : Type} (idxs : list nat)
  (body body' : nat -> St -> result St) :
  (forall i s, In i idxs -> body i s = body' i s) ->
  forall s, for_each idxs body s = for_each idxs body' s.
Proof.
  induction idxs as [|i rest IH]; intros Hb s; simpl.
  - reflexivity.
  - rewrite Hb by (left; reflexivity).
    destruct (body' i s) as [s1|]; simpl; [|reflexivity].
    apply IH. intros j s' Hj. apply Hb. right. exact Hj.
Qed.

Lemma nth_firstn_lt {A : Type} (n i : nat) (l : list A) (d : A) :
  (i < n)%nat -> nth i (firstn n l) d = nth i l d.
Proof.
  revert i l. induction n as [|n IH]; intros i l Hi; [lia|].
  destruct l as [|x l]; [reflexivity|].
  destruct i as [|i]; simpl; [reflexivity|]. apply IH. lia.
Qed.

Section Dose.

Context {T : Type} `{Scalar T} `{Nano T}.

Lemma sigma_ext (n : nat) (f g : nat -> T) :
  (forall i, (i < n)%nat -> f i = g i) -> sigma n f = sigma n g.
Proof.
  intros Hfg. unfold sigma. apply fold_left_ext_in.
  intros a i Hi. apply in_seq in Hi. rewrite Hfg by lia. reflexivity.
Qed.

Lemma ambient_dose_ok (spectrum icrp_factors : list T) :
  (52 <= length spectrum)%nat -> (52 <= length icrp_factors)%nat ->
  ambient_dose spectrum icrp_factors
  = Ok (sigma 52 (fun i => vget spectrum i *. vget icrp_factors i)
        *. of_int 3600 *. nano).
Proof.
  intros Hs Hf. unfold ambient_dose.
  rewrite (for_each_push _ _
             (fun i => vget spectrum i *. vget icrp_factors i) []).
  - rewrite bind_of_Ok, app_nil_l.
    rewrite (for_each_fold _ _
               (fun d i => d +. vget spectrum i *. vget icrp_factors i)).
    + reflexivity.
    + intros i d Hi. apply in_range in Hi.
      rewrite vget_at by (unfold range; rewrite length_map, length_seq; exact Hi).
      rewrite bind_of_Ok. unfold range. rewrite vget_map_seq by exact Hi.
      reflexivity.
  - intros i v Hi. apply in_range in Hi.
    rewrite !vget_at by lia. reflexivity.
Qed.

Lemma ambient_dose_Ok (spectrum icrp_factors : list T) (dose : T) :
  ambient_dose spectrum icrp_factors = Ok dose ->
  (52 <= length spectrum)%nat /\ (52 <= length icrp_factors)%nat.
Proof.
  intros E. unfold ambient_dose in E. inv_bind E. clear E.
  apply (for_each_Ok_inv (fun _ => True)) in E0; [|trivial|trivial].
  destruct E0 as [_ Hall].
  destruct (Hall 51%nat) as [v [v' [_ Eb]]].
  { apply in_range. lia. }
  inv_bind Eb. inv_bind Eb. apply at_Ok in E, E0. lia.
Qed.

(** X19. The dose is computed from exactly 52 bins, whatever the number of
    energy bins of the input: with at least 52 entries in the spectrum and
    in the conversion factors every read is in range and a dose results;
    with fewer than 52 in either, the products of lines 591-597 read outside
    the vector. *)
Theorem ambient_dose_reads_52_bins (spectrum icrp_factors : list T) :
  ((52 <= length spectrum)%nat /\ (52 <= length icrp_factors)%nat ->
   exists dose, ambient_dose spectrum icrp_factors = Ok dose) /\
  ((length spectrum < 52)%nat \/ (length icrp_factors < 52)%nat ->
   ambient_dose spectrum icrp_factors = OutOfRange).
Proof.
  split.
  - intros [Hs Hf]. eexists. apply ambient_dose_ok; assumption.
  - intros Hshort.
    destruct (ambient_dose spectrum icrp_factors) as [d|] eqn:E;
      [|reflexivity].
    apply ambient_dose_Ok in E. lia.
Qed.

(** X20. The dose ignores every bin from the 53rd on: two spectra that agree
    on their first 52 entries, with conversion factors that agree on their
    first 52 entries, have the same dose (or both read out of range). *)
Theorem ambient_dose_ignores_bins_beyond_52
  (spectrum spectrum' icrp_factors icrp_factors' : list T) :
  firstn 52 spectrum = firstn 52 spectrum' ->
  firstn 52 icrp_factors = firstn 52 icrp_factors' ->
  ambient_dose spectrum icrp_factors = ambient_dose spectrum' icrp_factors'.
Proof.
  intros Es Ef.
  assert (Hls : Nat.min 52 (length spectrum) = Nat.min 52 (length spectrum'))
    by (rewrite <- !length_firstn, Es; reflexivity).
  assert (Hlf : Nat.min 52 (length icrp_factors)
                = Nat.min 52 (length icrp_factors'))
    by (rewrite <- !length_firstn, Ef; reflexivity).
  destruct (le_lt_dec 52 (length spectrum)) as [Hs | Hs];
    [destruct (le_lt_dec 52 (length icrp_factors)) as [Hf | Hf]|].
  - rewrite !ambient_dose_ok by lia. do 3 f_equal.
    apply sigma_ext. intros i Hi. unfold vget.
    rewrite <- (nth_firstn_lt 52 i spectrum) by exact Hi.
    rewrite <- (nth_firstn_lt 52 i icrp_factors) by exact Hi.
    rewrite Es, Ef, !nth_firstn_lt by exact Hi. reflexivity.
  - destruct (ambient_dose spectrum icrp_factors) as [d|] eqn:E1.
    { apply ambient_dose_Ok in E1. lia. }
    destruct (ambient_dose spectrum' icrp_factors') as [d|] eqn:E2.
    { apply ambient_dose_Ok in E2. lia. }
    reflexivity.
  - destruct (ambient_dose spectrum icrp_factors) as [d|] eqn:E1.
    { apply ambient_dose_Ok in E1. lia. }
    destruct (ambient_dose spectrum' icrp_factors') as [d|] eqn:E2.
    { apply ambient_dose_Ok in E2. lia. }
    reflexivity.
Qed.

End Dose.

(** ** The loop written out for the samples

    The loop of lines 349-481 differs from [runMLEM] in three places: it
    adds the ratio, the corrected bin and the updated bin to a 0, it
    multiplies the transposed response by an array of ones, and it leaves
    on [<] and [>] where [runMLEM] goes on on [>=] and [<=].  In binary64
    the multiplication is exact, the addition changes the negative zero
    only, and the two tests differ on a NaN only. *)

Lemma Prim2SF_nan : Prim2SF nan = S754_nan.
Proof. vm_compute. reflexivity. Qed.

Section NaN.

Implicit Types x : float.

Lemma not_a_number_is_nan x : not_a_number x = true -> x = nan.
Proof.
  rewrite not_a_number_spec. intros Hx. apply Prim2SF_inj.
  rewrite Hx, Prim2SF_nan. reflexivity.
Qed.

Lemma nan_add_l x : nan +. x = nan.
Proof.
  cbn [add float_Scalar]. apply Prim2SF_inj.
  rewrite add_spec, Prim2SF_nan. reflexivity.
Qed.

Lemma nan_add_r x : x +. nan = nan.
Proof.
  cbn [add float_Scalar]. apply Prim2SF_inj.
  rewrite add_spec, Prim2SF_nan. destruct (Prim2SF x); reflexivity.
Qed.

Lemma nan_mul_l x : nan *. x = nan.
Proof.
  cbn [mul float_Scalar]. apply Prim2SF_inj.
  rewrite mul_spec, Prim2SF_nan. reflexivity.
Qed.

Lemma nan_mul_r x : x *. nan = nan.
Proof.
  cbn [mul float_Scalar]. apply Prim2SF_inj.
  rewrite mul_spec, Prim2SF_nan. destruct (Prim2SF x); reflexivity.
Qed.

Lemma nan_div_l x : nan /. x = nan.
Proof.
  cbn [div float_Scalar]. apply Prim2SF_inj.
  rewrite div_spec, Prim2SF_nan. reflexivity.
Qed.

Lemma fold_left_from_nan (f : nat -> float) (l : list nat) :
  fold_left (fun acc i => acc +. f i) l nan = nan.
Proof.
  induction l as [|i l IH]; [reflexivity|].
  cbn [fold_left]. rewrite nan_add_l. exact IH.
Qed.

Lemma fold_left_nan_term (f : nat -> float) (l : list nat) (i : nat) :
  In i l -> f i = nan ->
  forall acc, fold_left (fun acc i => acc +. f i) l acc = nan.
Proof.
  intros Hi Hf. induction l as [|j l IH]; [contradiction|].
  intros acc. cbn [fold_left]. destruct Hi as [-> | Hi].
  - rewrite Hf, nan_add_r. apply fold_left_from_nan.
  - apply IH. exact Hi.
Qed.

(** A sum with a NaN term is a NaN. *)
Lemma sigma_nan_term (n : nat) (f : nat -> float) (i : nat) :
  (i < n)%nat -> f i = nan -> sigma n f = nan.
Proof.
  intros Hi Hf. unfold sigma. apply (fold_left_nan_term f _ i).
  - apply in_seq. lia.
  - exact Hf.
Qed.

Lemma all_nan_repeat (v : list float) :
  forallb not_a_number v = true -> v = repeat nan (length v).
Proof.
  induction v as [|x v IH]; [reflexivity|].
  cbn [forallb length repeat]. intros Hv. apply andb_true_iff in Hv.
  destruct Hv as [Hx Hv]. rewrite <- IH by exact Hv.
  rewrite (not_a_number_is_nan x Hx). reflexivity.
Qed.

Lemma existsb_nan_vget (v : list float) :
  existsb not_a_number v = true ->
  exists i, (i < length v)%nat /\ vget v i = nan.
Proof.
  intros Hv. apply existsb_exists in Hv. destruct Hv as [x [Hx Hnan]].
  apply (In_nth v x zero) in Hx. destruct Hx as [i [Hi Ei]].
  exists i. split; [exact Hi|]. unfold vget. rewrite Ei.
  apply not_a_number_is_nan. exact Hnan.
Qed.

End NaN.

Section SampleSigns.

Implicit Types v s c n : list float.
Implicit Types R : list (list float).

Let clear v : Prop := forall i, sign_bit_clear (vget v i) = true.

Lemma forallb_clear v : forallb sign_bit_clear v = true -> clear v.
Proof.
  intros Hv i. apply (vget_forallb sign_bit_clear); [reflexivity | exact Hv].
Qed.

Lemma map_seq_clear (f : nat -> float) (k : nat) :
  (forall j, (j < k)%nat -> sign_bit_clear (f j) = true) ->
  clear (map f (seq 0 k)).
Proof.
  intros Hf i. destruct (Nat.lt_ge_cases i k) as [Hi | Hi].
  - rewrite vget_map_seq by exact Hi. apply Hf. exact Hi.
  - unfold vget. rewrite nth_overflow
      by (rewrite length_map, length_seq; exact Hi).
    reflexivity.
Qed.

Variable R : list (list float).
Hypothesis R_clear : forallb (forallb sign_bit_clear) R = true.

Lemma mget_clear (m b : nat) : sign_bit_clear (mget R m b) = true.
Proof.
  apply (mget_forallb sign_bit_clear); [reflexivity | exact R_clear].
Qed.

Lemma estimate_clear (M B : nat) s : clear s -> clear (estimate_of M B R s).
Proof.
  intros Hs. apply map_seq_clear. intros m _.
  apply sigma_sign_bit_clear. intros b _.
  apply sign_bit_clear_nonneg_or_nan.
  apply sign_bit_clear_mul; [apply mget_clear | apply Hs].
Qed.

Lemma ratio_clear (M : nat) (meas est : list float) :
  clear meas -> clear est -> clear (ratio_of M meas est).
Proof.
  intros Hm He. apply map_seq_clear. intros m _.
  apply sign_bit_clear_div; [apply Hm | apply He].
Qed.

Lemma correction_clear (M B : nat) (ratio : list float) :
  clear ratio -> clear (correction_of M B R ratio).
Proof.
  intros Hr. apply map_seq_clear. intros b _.
  apply sigma_sign_bit_clear. intros m _.
  apply sign_bit_clear_nonneg_or_nan.
  apply sign_bit_clear_mul; [apply mget_clear | apply Hr].
Qed.

Lemma normalization_clear (M B : nat) : clear (normalization_of M B R).
Proof.
  apply map_seq_clear. intros b _.
  apply sigma_sign_bit_clear. intros m _.
  apply sign_bit_clear_nonneg_or_nan. apply mget_clear.
Qed.

Lemma updated_clear (B : nat) s c n :
  clear s -> clear c -> clear n ->
  forallb sign_bit_clear (updated_of B s c n) = true.
Proof.
  intros Hs Hc Hn. apply forallb_map_seq. intros b _.
  apply sign_bit_clear_div; [|apply Hn].
  apply sign_bit_clear_mul; [apply Hs | apply Hc].
Qed.

End SampleSigns.

Section Sampling.

Variable response : list (list float).
Variables icrp_factors data_poisson : list float.

Hypothesis response_clear :
  forallb (forallb sign_bit_clear) response = true.
Hypothesis data_clear : forallb sign_bit_clear data_poisson = true.
Hypothesis icrp_bins : (52 <= length icrp_factors)%nat.

Let state (ini_poisson ratio : list float) : Refs float :=
  mkRefs data_poisson ini_poisson response ratio.

Let step : Refs float -> Refs float := step_of 8 52.

Lemma step_clear (ini_poisson ratio : list float) :
  forallb sign_bit_clear ini_poisson = true ->
  forallb sign_bit_clear (spectrum (step (state ini_poisson ratio))) = true.
Proof.
  intros Hini. unfold step, step_of, state.
  cbn [spectrum measurements nns_response].
  apply updated_clear.
  - apply forallb_clear. exact Hini.
  - apply correction_clear; [exact response_clear|].
    apply ratio_clear; [apply forallb_clear; exact data_clear|].
    apply estimate_clear; [exact response_clear|].
    apply forallb_clear. exact Hini.
  - apply normalization_clear. exact response_clear.
Qed.

(** One pass of the body written out in [main] is one iteration of
    [runMLEM], bit for bit. *)
Lemma sample_iteration_ok (ini_poisson ratio : list float) :
  well_dimensioned 8 52 (state ini_poisson ratio) ->
  forallb sign_bit_clear ini_poisson = true ->
  exists dose_std,
    ambient_dose (spectrum (step (state ini_poisson ratio))) icrp_factors
    = Ok dose_std /\
    sample_iteration response icrp_factors data_poisson ini_poisson
    = Ok (spectrum (step (state ini_poisson ratio)), dose_std,
          mlem_ratio (step (state ini_poisson ratio))).
Proof.
  intros [Hmeas [HR [Hrows Hs]]] Hini. unfold state in Hmeas, HR, Hrows, Hs.
  cbn [measurements spectrum nns_response] in Hmeas, HR, Hrows, Hs.
  pose proof (forallb_clear _ Hini) as Cini.
  pose proof (forallb_clear _ data_clear) as Cdata.
  unfold sample_iteration.
  pose proof (apply_response_ok 8 52 response ini_poisson HR Hrows Hs)
    as E1.
  unfold apply_response in E1. rewrite E1. clear E1. rewrite bind_of_Ok.
  rewrite (transpose_ok 8 52) by assumption. rewrite bind_of_Ok.
  set (est := estimate_of (Z.to_nat 8) (Z.to_nat 52) response ini_poisson).
  assert (Cest : forall i, sign_bit_clear (vget est i) = true)
    by (apply estimate_clear; assumption).
  rewrite (for_each_push _ _
             (fun m => vget data_poisson m /. vget est m) []).
  2:{ intros i v Hi. apply in_range in Hi.
      rewrite !vget_at
        by (rewrite ?Hmeas; unfold est; rewrite ?length_estimate_of; exact Hi).
      rewrite !bind_of_Ok, binary64_add_zero_l; [reflexivity|].
      apply sign_bit_clear_div; [apply Cdata | apply Cest]. }
  rewrite bind_of_Ok, app_nil_l.
  change (map (fun m => vget data_poisson m /. vget est m) (range 8))
    with (ratio_of (Z.to_nat 8) data_poisson est).
  set (r := ratio_of (Z.to_nat 8) data_poisson est).
  assert (Cr : forall i, sign_bit_clear (vget r i) = true)
    by (apply ratio_clear; assumption).
  pose proof (compute_correction_ok 8 52 response r
                (length_ratio_of _ _ _)) as E4.
  unfold compute_correction in E4. rewrite E4. clear E4. rewrite bind_of_Ok.
  set (c := correction_of (Z.to_nat 8) (Z.to_nat 52) response r).
  assert (Cc : forall i, sign_bit_clear (vget c i) = true)
    by (apply correction_clear; assumption).
  pose proof (compute_normalization_ok 8 52 response) as E5.
  unfold compute_normalization in E5.
  match goal with
  | |- context [for_each (range 52) ?b (@nil float)] =>
      rewrite (for_each_ext (range 52) b
                 (fun i_bin mlem_normalization =>
                    temp_value <-
                      for_each (range 8) (fun i_meas temp_value =>
                        col <- (transpose_of (Z.to_nat 8) (Z.to_nat 52)
                                  response).[i_bin] ;;
                        t <- col.[i_meas] ;;
                        Ok (temp_value +. t)) zero ;;
                    Ok (mlem_normalization ++ [temp_value])))
  end.
  2:{ intros i v _. f_equal. apply for_each_ext. intros k f _.
      destruct ((transpose_of _ _ response).[i]) as [col|]; [|reflexivity].
      rewrite !bind_of_Ok. destruct (col.[k]) as [t|]; [|reflexivity].
      rewrite !bind_of_Ok, binary64_mul_one_r. reflexivity. }
  rewrite E5. clear E5. rewrite bind_of_Ok.
  set (n := normalization_of (Z.to_nat 8) (Z.to_nat 52) response).
  assert (Cn : forall i, sign_bit_clear (vget n i) = true)
    by (apply normalization_clear; assumption).
  rewrite (for_each_push _ _
             (fun b => vget ini_poisson b *. vget c b) []).
  2:{ intros i v Hi. apply in_range in Hi.
      rewrite !vget_at
        by (rewrite ?Hs; unfold c; rewrite ?length_correction_of; exact Hi).
      rewrite !bind_of_Ok, binary64_add_zero_l; [reflexivity|].
      apply sign_bit_clear_mul; [apply Cini | apply Cc]. }
  rewrite bind_of_Ok, app_nil_l.
  set (ini1 := map (fun b => vget ini_poisson b *. vget c b) (range 52)).
  assert (Eup : forall body,
             (forall i v, body i v =
                          (s <- ini1.[i] ;; f <- n.[i] ;;
                           assign v i (zero +. s /. f))) ->
             for_each (range 52) body ini_poisson
             = Ok (updated_of (Z.to_nat 52) ini_poisson c n)).
  { intros body Hbody. unfold range, updated_of. rewrite <- Hs.
    rewrite (for_each_in_place_all body
               (fun i _ => vget ini1 i /. vget n i)).
    - f_equal. apply map_ext_in. intros i Hi. apply in_seq in Hi.
      unfold ini1, range. rewrite vget_map_seq by lia. reflexivity.
    - intros i v Hi Hv. rewrite Hbody.
      rewrite !vget_at
        by (unfold ini1, n, range;
            rewrite ?length_map, ?length_seq, ?length_normalization_of; lia).
      rewrite !bind_of_Ok, binary64_add_zero_l; [apply assign_ok; lia|].
      apply sign_bit_clear_div; [|apply Cn].
      unfold ini1, range. rewrite vget_map_seq by lia.
      apply sign_bit_clear_mul; [apply Cini | apply Cc]. }
  rewrite (Eup _ (fun i v => eq_refl)). clear Eup. rewrite bind_of_Ok.
  pose proof (ambient_dose_ok
                (updated_of (Z.to_nat 52) ini_poisson c n) icrp_factors) as Ed.
  rewrite length_updated_of in Ed. specialize (Ed (Nat.le_refl _) icrp_bins).
  eexists. split; [exact Ed|].
  rewrite Ed, bind_of_Ok. reflexivity.
Qed.

(** The test of line 477 passes only where the test of [runMLEM] passes,
    and where the latter alone passes a ratio is a NaN. *)
Lemma sample_converged_within (error : float) (ratio : list float) :
  sample_converged error ratio = true -> within_tolerance error ratio = true.
Proof.
  unfold sample_converged, within_tolerance, outside_tolerance.
  induction ratio as [|r ratio IH]; [reflexivity|].
  cbn [forallb]. intros Hc. apply andb_true_iff in Hc.
  destruct Hc as [Hr Hc]. rewrite (IH Hc), andb_true_r.
  apply andb_true_iff in Hr. destruct Hr as [Hhi Hlo].
  rewrite negb_orb, (binary64_not_leb r (one +. error)),
    (binary64_not_leb (one -. error) r), Hhi, Hlo.
  reflexivity.
Qed.

Lemma within_not_converged (error : float) (ratio : list float) :
  not_a_number (one +. error) = false ->
  not_a_number (one -. error) = false ->
  within_tolerance error ratio = true ->
  sample_converged error ratio = false ->
  existsb not_a_number ratio = true.
Proof.
  intros Hhi Hlo. rewrite (within_tolerance_binary64 error ratio Hhi Hlo).
  unfold sample_converged, in_open_interval.
  induction ratio as [|r ratio IH]; [discriminate|].
  cbn [forallb existsb]. intros Hw Hc. apply andb_true_iff in Hw.
  destruct Hw as [Hr Hw].
  destruct (not_a_number r); [reflexivity|]. cbn [orb] in Hr |- * .
  apply IH; [exact Hw|].
  rewrite andb_comm in Hr. rewrite Hr in Hc. exact Hc.
Qed.

(** A NaN among the ratios makes every bin of the updated spectrum a NaN,
    and a spectrum of NaNs stays one. *)
Lemma step_nan_ratio (ini_poisson ratio : list float) :
  existsb not_a_number (mlem_ratio (step (state ini_poisson ratio))) = true ->
  forallb not_a_number (spectrum (step (state ini_poisson ratio))) = true.
Proof.
  intros Hnan. apply existsb_nan_vget in Hnan.
  destruct Hnan as [m [Hm Em]]. revert Hm Em.
  unfold step, step_of, state. cbn [spectrum mlem_ratio measurements
                                      nns_response].
  rewrite length_ratio_of. intros Hm Em.
  unfold updated_of. apply forallb_map_seq. intros b Hb.
  unfold correction_of at 1.
  rewrite (vget_map_seq (fun b => sigma 8 (fun m => mget response m b *. _)))
    by exact Hb.
  rewrite (sigma_nan_term 8 _ m Hm) by (rewrite Em; apply nan_mul_r).
  rewrite nan_mul_r, nan_div_l. reflexivity.
Qed.

Lemma step_nan_spectrum (ini_poisson ratio : list float) :
  length ini_poisson = 52%nat ->
  forallb not_a_number ini_poisson = true ->
  forallb not_a_number (spectrum (step (state ini_poisson ratio))) = true.
Proof.
  intros Hlen Hnan. unfold step, step_of, state.
  cbn [spectrum measurements nns_response].
  unfold updated_of. apply forallb_map_seq. intros b Hb.
  assert (Eb : vget ini_poisson b = nan).
  { apply not_a_number_is_nan. unfold vget.
    rewrite forallb_forall in Hnan. apply Hnan. apply nth_In. lia. }
  rewrite Eb, nan_mul_l, nan_div_l. reflexivity.
Qed.

Lemma sign_bit_clear_nan (v : list float) :
  forallb not_a_number v = true -> forallb sign_bit_clear v = true.
Proof.
  intros Hv. rewrite (all_nan_repeat v Hv).
  apply forallb_forall. intros x Hx. apply repeat_spec in Hx. subst x.
  reflexivity.
Qed.

(** From a spectrum of NaNs the loop of the samples returns a spectrum of
    NaNs, whenever it stops. *)
Lemma sample_loop_all_nan (error : float) (n : nat) :
  forall (ini_poisson ratio : list float) (dose_std : float),
    well_dimensioned 8 52 (state ini_poisson ratio) ->
    forallb not_a_number ini_poisson = true ->
    exists spectrum' dose_std',
      sample_loop error response icrp_factors data_poisson n ini_poisson
        dose_std = Ok (spectrum', dose_std') /\
      length spectrum' = 52%nat /\
      forallb not_a_number spectrum' = true /\
      (n = 0%nat /\ dose_std' = dose_std \/
       ambient_dose spectrum' icrp_factors = Ok dose_std').
Proof.
  induction n as [|n IH]; intros ini_poisson ratio dose_std Hd Hnan.
  - exists ini_poisson, dose_std. split; [reflexivity|].
    split; [apply Hd|]. split; [exact Hnan|]. left. split; reflexivity.
  - cbn [sample_loop].
    destruct (sample_iteration_ok ini_poisson ratio Hd
                (sign_bit_clear_nan _ Hnan)) as [d [Ed E]].
    rewrite E, bind_of_Ok. clear E.
    pose proof (well_dimensioned_step _ _ _ Hd) as Hd'.
    change (step_of (Z.to_nat 8) (Z.to_nat 52)) with step in Hd'.
    assert (Hlen : length ini_poisson = 52%nat) by apply Hd.
    pose proof (step_nan_spectrum ini_poisson ratio Hlen Hnan) as Hnan'.
    set (st1 := step (state ini_poisson ratio)) in Hd', Hnan', Ed |- * .
    destruct (sample_converged error (mlem_ratio st1)).
    + exists (spectrum st1), d. split; [reflexivity|].
      split; [apply Hd'|]. split; [exact Hnan'|]. right. exact Ed.
    + change st1 with (state (spectrum st1) (mlem_ratio st1)) in Hd'.
      destruct (IH (spectrum st1) (mlem_ratio st1) d Hd' Hnan')
        as [s' [d' [Es [Hl [Hn Hdose]]]]].
      exists s', d'. split; [exact Es|]. split; [exact Hl|].
      split; [exact Hn|]. right.
      destruct Hdose as [[-> ->] | Hdose]; [|exact Hdose].
      cbn [sample_loop] in Es. injection Es as <-. exact Ed.
Qed.

Lemma sample_loop_runs (error : float) (n : nat) :
  not_a_number (one +. error) = false ->
  not_a_number (one -. error) = false ->
  forall (ini_poisson ratio : list float) (dose_std : float) (idx : Z),
    well_dimensioned 8 52 (state ini_poisson ratio) ->
    forallb sign_bit_clear ini_poisson = true ->
    exists idx' st' dose_std',
      mlem_loop error 8 52 n idx (state ini_poisson ratio) = Ok (idx', st') /\
      sample_loop error response icrp_factors data_poisson n ini_poisson
        dose_std = Ok (spectrum st', dose_std') /\
      (n = 0%nat /\ dose_std' = dose_std \/
       ambient_dose (spectrum st') icrp_factors = Ok dose_std').
Proof.
  intros Hhi Hlo.
  induction n as [|n IH]; intros ini_poisson ratio dose_std idx Hd Hini.
  - exists idx, (state ini_poisson ratio), dose_std.
    split; [reflexivity|]. split; [reflexivity|]. left. split; reflexivity.
  - cbn [mlem_loop sample_loop].
    rewrite mlem_iteration_ok by exact Hd. rewrite bind_of_Ok.
    destruct (sample_iteration_ok ini_poisson ratio Hd Hini) as [d [Ed E]].
    rewrite E, bind_of_Ok. clear E.
    pose proof (well_dimensioned_step _ _ _ Hd) as Hd'.
    rewrite check_ratios_ok by exact (length_ratio_of _ _ _).
    rewrite bind_of_Ok.
    pose proof (step_clear ini_poisson ratio Hini) as Hini'.
    pose proof (step_nan_ratio ini_poisson ratio) as Hnan.
    change (step_of (Z.to_nat 8) (Z.to_nat 52)) with step in Hd' |- * .
    set (st1 := step (state ini_poisson ratio)) in Hd', Hini', Hnan, Ed |- * .
    pose proof (sample_converged_within error (mlem_ratio st1)) as Hcw.
    pose proof (within_not_converged error (mlem_ratio st1) Hhi Hlo) as Hwc.
    destruct (within_tolerance error (mlem_ratio st1)) eqn:Ew;
      destruct (sample_converged error (mlem_ratio st1)) eqn:Ec;
      cbn [negb].
    + exists idx, st1, d. split; [reflexivity|]. split; [reflexivity|].
      right. exact Ed.
    + specialize (Hnan (Hwc eq_refl eq_refl)).
      change st1 with (state (spectrum st1) (mlem_ratio st1)) in Hd'.
      destruct (sample_loop_all_nan error n (spectrum st1) (mlem_ratio st1)
                  d Hd' Hnan) as [s' [d' [Es [Hl [Hn Hdose]]]]].
      assert (Es' : s' = spectrum st1).
      { rewrite (all_nan_repeat s' Hn), (all_nan_repeat _ Hnan), Hl.
        apply f_equal. symmetry. apply Hd'. }
      subst s'.
      exists idx, st1, d'. split; [reflexivity|]. split; [exact Es|].
      right. destruct Hdose as [[-> ->] | Hdose]; [exact Ed | exact Hdose].
    + discriminate (Hcw eq_refl).
    + change st1 with (state (spectrum st1) (mlem_ratio st1)) in Hd' |- * .
      destruct (IH (spectrum st1) (mlem_ratio st1) d (idx + 1) Hd' Hini')
        as [idx' [st' [d' [El [Es Hdose]]]]].
      exists idx', st', d'. split; [exact El|]. split; [exact Es|].
      right. destruct Hdose as [[-> ->] | Hdose]; [|exact Hdose].
      cbn [mlem_loop] in El. injection El as _ <-. exact Ed.
Qed.

(** X21. In binary64, for a response, a sample and an initial spectrum
    whose entries are +0, positive, +infinity or NaN (no negative number
    and no negative zero), of the dimensions the loop is written for, and a
    tolerance whose bounds 1 + error and 1 - error are numbers, the loop
    [main] writes out for each Poisson sample leaves the spectrum that
    [runMLEM] leaves for 8 measurements and 52 bins, bit for bit, for every
    cutoff; when an iteration was made, the dose it leaves is the dose of
    that spectrum.  (The loop can make more iterations than [runMLEM]: a
    NaN ratio stops [runMLEM] and not the loop, but every bin is a NaN from
    then on.) *)
Theorem unfold_sample_agrees_with_runMLEM (cutoff : Z) (error : float)
  (ini_poisson ratio : list float) (dose_std : float) :
  well_dimensioned 8 52 (state ini_poisson ratio) ->
  forallb sign_bit_clear ini_poisson = true ->
  not_a_number (one +. error) = false ->
  not_a_number (one -. error) = false ->
  exists idx st' dose_std',
    runMLEM cutoff error 8 52 (state ini_poisson ratio) = Ok (idx, st') /\
    unfold_sample cutoff error response icrp_factors data_poisson
      ini_poisson dose_std = Ok (spectrum st', dose_std') /\
    (1 < cutoff -> ambient_dose (spectrum st') icrp_factors = Ok dose_std').
Proof.
  intros Hd Hini Hhi Hlo. unfold runMLEM, unfold_sample.
  destruct (sample_loop_runs error (Z.to_nat (cutoff - 1)) Hhi Hlo
              ini_poisson ratio dose_std 1 Hd Hini)
    as [idx [st' [d' [El [Es Hdose]]]]].
  exists idx, st', d'. split; [exact El|]. split; [exact Es|].
  intros Hc. destruct Hdose as [[Hn _] | Hdose]; [lia | exact Hdose].
Qed.

End Sampling.

(** Without the hypothesis on the signs the two differ: from a spectrum
    whose first bin is the negative zero, [runMLEM] leaves the negative
    zero there and the loop of the samples the positive zero. *)
Remark negative_zero_separates_the_loops :
  exists st' spectrum' dose_std',
    runMLEM 2 0.01%float 8 52
      (mkRefs flat_counts flat_spectrum_negative_zero flat_response [])
    = Ok (2, st') /\
    unfold_sample 2 0.01%float flat_response flat_spectrum flat_counts
      flat_spectrum_negative_zero 0%float = Ok (spectrum', dose_std') /\
    classify (vget (spectrum st') 0) = FloatClass.NZero /\
    classify (vget spectrum' 0) = FloatClass.PZero.
Proof.
  eexists _, _, _.
  split; [vm_compute; reflexivity|].
  split; [vm_compute; reflexivity|].
  split; vm_compute; reflexivity.
Qed.

(** ** The schedule of iteration counts *)

Lemma firstn_snoc {A : Type} (l : list A) (k : nat) (d : A) :
  (k < length l)%nat -> firstn (S k) l = firstn k l ++ [nth k l d].
Proof.
  revert k. induction l as [|x l IH]; intros k Hk; simpl in Hk; [lia|].
  destruct k as [|k]; [reflexivity|].
  cbn [firstn nth app]. apply f_equal. apply IH. lia.
Qed.

Lemma last_as_nth {A : Type} (l : list A) (d : A) :
  last l d = match length l with O => d | S j => nth j l d end.
Proof.
  induction l as [|x l IH]; [reflexivity|].
  destruct l as [|y l]; [reflexivity|].
  change (last (x :: y :: l) d) with (last (y :: l) d). rewrite IH.
  reflexivity.
Qed.

Lemma int_value_ok (z : Z) :
  - int_max - 1 <= z <= int_max -> int_value z = Ok z.
Proof.
  intros Hz. unfold int_value.
  replace ((- int_max - 1 <=? z) && (z <=? int_max)) with true; [reflexivity|].
  symmetry. apply andb_true_iff. split; apply Z.leb_le; lia.
Qed.

Section Schedule.

Variable num_iterations_vector : list Z.

Hypothesis counts_in_range :
  Forall (fun count => 0 <= count <= int_max) num_iterations_vector.

Let count (i : nat) : Z := nth i num_iterations_vector 0.

Let increment (i : nat) : Z :=
  if (i =? 0)%nat then count i else count i - count (i - 1).

Let total (k : nat) : Z := match k with O => 0 | S j => count j end.

Lemma count_in_range (i : nat) : 0 <= count i <= int_max.
Proof.
  unfold count.
  destruct (Nat.lt_ge_cases i (length num_iterations_vector)) as [Hi | Hi].
  - rewrite Forall_forall in counts_in_range. apply counts_in_range.
    apply nth_In. exact Hi.
  - rewrite nth_overflow by exact Hi. unfold int_max. lia.
Qed.

Lemma schedule_prefix (k : nat) :
  (k <= length num_iterations_vector)%nat ->
  for_each (seq 0 k) (fun i_num st =>
    let '(calls, totals, total_num_iterations) := st in
    num_iterations <-
      (if (i_num =? 0)%nat then num_iterations_vector.[i_num]
       else a <- num_iterations_vector.[i_num] ;;
            b <- num_iterations_vector.[i_num - 1] ;;
            int_value (a - b)) ;;
    total_num_iterations <- int_value (total_num_iterations + num_iterations) ;;
    Ok (calls ++ [num_iterations], totals ++ [total_num_iterations],
        total_num_iterations)) ([], [], 0)
  = Ok (map increment (seq 0 k), firstn k num_iterations_vector, total k).
Proof.
  induction k as [|k IH]; intros Hk; [reflexivity|].
  rewrite seq_S, for_each_app, IH by lia. rewrite bind_of_Ok.
  cbn [for_each Nat.add].
  assert (Einc : (if (k =? 0)%nat then num_iterations_vector.[k]
                  else a <- num_iterations_vector.[k] ;;
                       b <- num_iterations_vector.[k - 1] ;;
                       int_value (a - b)) = Ok (increment k)).
  { unfold increment. destruct (k =? 0)%nat eqn:Ek.
    - apply at_nth. lia.
    - apply Nat.eqb_neq in Ek.
      rewrite (at_nth _ k 0), (at_nth _ (k - 1) 0) by lia.
      rewrite !bind_of_Ok. apply int_value_ok.
      pose proof (count_in_range k). pose proof (count_in_range (k - 1)).
      lia. }
  rewrite Einc, bind_of_Ok.
  assert (Etot : total k + increment k = count k).
  { unfold total, increment. destruct k as [|j]; simpl; [lia|].
    rewrite Nat.sub_0_r. lia. }
  rewrite Etot, int_value_ok
    by (pose proof (count_in_range k); lia).
  rewrite !bind_of_Ok, map_app, (firstn_snoc _ k 0) by lia. reflexivity.
Qed.

End Schedule.

(** X22. For counts between 0 and the largest [int], the schedule never
    overflows and never reads out of range; the count passed to the first
    call is the first count asked for, the count passed to every later call
    is the difference from the count before, and the total written after
    the [i]-th call is the [i]-th count asked for, so that the last total is
    the last count, whether or not the counts increase. *)
Theorem iteration_schedule_totals (num_iterations_vector : list Z) :
  Forall (fun count => 0 <= count <= int_max) num_iterations_vector ->
  iteration_schedule num_iterations_vector
  = Ok (increments num_iterations_vector, num_iterations_vector,
        last num_iterations_vector 0).
Proof.
  intros Hv. unfold iteration_schedule, range. rewrite Nat2Z.id.
  rewrite (schedule_prefix _ Hv) by lia.
  rewrite firstn_all, last_as_nth. reflexivity.
Qed.

(** ** The further properties at concrete inputs *)

Local Open Scope string_scope.

Lemma setfile_default_without_flag :
  setfile ["--energy-bins"; "bins.csv"] "input/" "--measurements"
    "measurements.txt" "old.txt"
  = (1, "input/" +++ "measurements.txt", []).
Proof.
  apply setfile_default. intros [R | [R | []]]; discriminate R.
Defined.

Lemma setfile_takes_next_argument_flag_as_value :
  setfile (["--verbose"] ++ "--measurements" :: "--energy-bins" :: ["b.csv"])
    "input/" "--measurements" "measurements.txt" "old.txt"
  = (1, "input/" +++ "--energy-bins", []).
Proof.
  apply (setfile_takes_next_argument ["--verbose"] ["b.csv"]).
  intros [R | []]; discriminate R.
Defined.

Lemma setfile_flag_without_value_last_argument :
  setfile (["--verbose"] ++ ["--measurements"]) "input/" "--measurements"
    "measurements.txt" "old.txt"
  = (1, "old.txt",
     ["Error: no file provided for argument: " +++ "--measurements"
      +++ newline]).
Proof.
  apply (setfile_flag_without_value ["--verbose"]).
  intros [R | []]; discriminate R.
Defined.

Lemma checkUnknownParameters_sound_bogus_argument :
  exists arg,
    "Warning: Ignored unknown argument " +++ "--bogus" +++ newline
    = "Warning: Ignored unknown argument " +++ arg +++ newline /\
    In arg ["--bogus"; "--measurements"; "m.csv"] /\
    ~ In arg ["--measurements"; "--energy-bins"].
Proof.
  apply checkUnknownParameters_sound. left. reflexivity.
Defined.

Lemma checkUnknownParameters_skips_values_bogus_value :
  checkUnknownParameters
    (flat_map (fun p => [fst p; snd p]) [("--measurements", "--bogus")])
    ["--measurements"; "--energy-bins"] = [].
Proof.
  apply checkUnknownParameters_skips_values.
  intros p [<- | []]. left. reflexivity.
Defined.

Ltac no_equals_sign_by_computation :=
  let R := fresh "R" in
  unfold no_equals_sign; cbv; intros R;
  repeat (destruct R as [R | R]; [discriminate R|]); exact R.

Lemma token_of_assignment_cutoff :
  token ("cutoff" +++ "=" +++ "4000") = "4000".
Proof.
  apply token_of_assignment. no_equals_sign_by_computation.
Defined.

Lemma token_without_equals_bare_number : token "4000" = "4000".
Proof.
  apply token_without_equals. no_equals_sign_by_computation.
Defined.

Lemma setSettings_positional_misnamed_lines :
  setSettings length_atof truncate
    (Some (("error" +++ "=" +++ "1") :: ("cutoff" +++ "=" +++ "22")
           :: ("norm" +++ "=" +++ "333") :: ("x" +++ "=" +++ "4444")
           :: ("y" +++ "=" +++ "55555") :: ["trailing"]))
  = Ok (true, Some (truncate (length_atof "1"), length_atof "22",
                    length_atof "333", length_atof "4444",
                    truncate (length_atof "55555"))).
Proof.
  apply setSettings_positional; no_equals_sign_by_computation.
Defined.

Lemma setSettings_short_file_one_line :
  setSettings length_atof truncate (Some ["cutoff=4000"]) = OutOfRange.
Proof.
  apply setSettings_short_file. simpl. lia.
Defined.

Local Close Scope string_scope.

Lemma main_prelude_reads_eight_measurements_two_charges :
  main_prelude 1%Q 1%Q 1 1%Q 1%Q [1; 2]%Q two_bins [[1; 1]; [1; 1]]%Q
    two_bins two_bins = Undefined.
Proof.
  apply main_prelude_reads_eight_measurements. simpl. lia.
Defined.

Lemma main_prelude_guards_rectangular_response_two_bins :
  well_dimensioned 8 2
    (mkRefs (map (fun nc => nc * 1 / 1 / inject_Z 1 * (1 / 1))%Q
               (rev eight_charges))
       two_bins two_bin_response []) /\
  exists idx st',
    runMLEM 10 (1 # 100)%Q 8 2
      (mkRefs (map (fun nc => nc * 1 / 1 / inject_Z 1 * (1 / 1))%Q
                 (rev eight_charges))
         two_bins two_bin_response []) = Ok (idx, st').
Proof.
  apply (main_prelude_guards_rectangular_response 1%Q 1%Q 1 1%Q 1%Q
           eight_charges two_bins two_bin_response two_bins two_bins).
  - reflexivity.
  - intros row Hrow. apply repeat_spec in Hrow. subst row. reflexivity.
Defined.

Lemma main_prelude_misses_jagged_response_short_fourth_row :
  runMLEM 10 (1 # 100)%Q 8 2
    (mkRefs (map (fun nc => nc * 1 / 1 / inject_Z 1 * (1 / 1))%Q
               (rev eight_charges))
       two_bins jagged_response []) = OutOfRange.
Proof.
  apply (main_prelude_misses_jagged_response 1%Q 1%Q 1 1%Q 1%Q
           eight_charges two_bins jagged_response two_bins two_bins
           8 2 _ 10 (1 # 100)%Q 3).
  - reflexivity.
  - simpl. lia.
  - simpl. lia.
  - lia.
Defined.

Lemma ambient_dose_reads_52_bins_51_bins :
  ambient_dose (repeat 1%float 51) flat_spectrum = OutOfRange.
Proof.
  apply (proj2 (ambient_dose_reads_52_bins (repeat 1%float 51) flat_spectrum)).
  left. simpl. lia.
Defined.

Lemma ambient_dose_ignores_bins_beyond_52_extra_bin :
  ambient_dose (flat_spectrum ++ [5%float]) (flat_spectrum ++ [2%float])
  = ambient_dose (flat_spectrum ++ [7%float]) flat_spectrum.
Proof.
  apply ambient_dose_ignores_bins_beyond_52; reflexivity.
Defined.

Lemma unfold_sample_agrees_with_runMLEM_flat :
  exists idx st' dose_std',
    runMLEM 3 0.01%float 8 52
      (mkRefs flat_counts flat_spectrum flat_response []) = Ok (idx, st') /\
    unfold_sample 3 0.01%float flat_response flat_spectrum flat_counts
      flat_spectrum 0%float = Ok (spectrum st', dose_std') /\
    (1 < 3 -> ambient_dose (spectrum st') flat_spectrum = Ok dose_std').
Proof.
  apply (unfold_sample_agrees_with_runMLEM flat_response flat_spectrum
           flat_counts).
  - vm_compute. reflexivity.
  - vm_compute. reflexivity.
  - simpl. lia.
  - repeat split; try reflexivity.
    apply Forall_forall. intros row Hrow. apply repeat_spec in Hrow.
    subst row. reflexivity.
  - vm_compute. reflexivity.
  - vm_compute. reflexivity.
  - vm_compute. reflexivity.
Defined.

Lemma iteration_schedule_totals_three_samples :
  iteration_schedule [3000; 4000; 6000]
  = Ok ([3000; 1000; 2000], [3000; 4000; 6000], 6000).
Proof.
  apply (iteration_schedule_totals [3000; 4000; 6000]).
  repeat constructor; unfold int_max; lia.
Defined.
